(** * NexusClient: a shallow embedding of [index.ts]

    The client is one class with a constructor and one method, [send].
    Both lean on the JavaScript host: [Array.isArray], the array literal
    [[events]], [JSON.stringify], the injected [fetch] and the response's
    [text()].  The host pieces are modelled first (values living in a store
    of objects, the serializer with its cycle check, the transport as an
    opaque state transformer), then the class itself, line by line. *)

From Stdlib Require Import String Ascii List ZArith Lia Bool Arith.
From Stdlib Require Import DecimalString.
From Stdlib Require QArith Qminmax.
Import ListNotations.
Open Scope string_scope.

Set Warnings "-register-all".

(* ================================================================== *)
(** ** JavaScript values *)

(** Objects and arrays are reached through references into a store, so
    that two references may share an object and an object may reach
    itself.  Everything else is a primitive. *)

Definition loc := nat.

Inductive value : Type :=
| VUndefined
| VNull
| VBool (b : bool)
| VNum (n : Z)          (* the integer Numbers; fractions, NaN, infinities are left out *)
| VBigInt (n : Z)
| VStr (s : string)
| VRef (l : loc).

(** An object keeps its own enumerable string-keyed properties in
    enumeration order. *)
Inductive object : Type :=
| OArr (items : list value)
| OObj (props : list (string * value)).

Definition heap := list object.
Bind Scope list_scope with heap.

(** The same data with references followed: what a caller writes down as
    a literal. *)
Inductive data : Type :=
| DUndefined
| DNull
| DBool (b : bool)
| DNum (n : Z)
| DBigInt (n : Z)
| DStr (s : string)
| DArr (items : list data)
| DObj (props : list (string * data)).

(** [Number.isSafeInteger(n)] on the integers: those that are Numbers
    one by one and that JavaScript prints digit by digit. *)
Definition safe_integer (n : Z) : bool := Z.ltb (Z.abs n) (2 ^ 53).

(** The data all of whose numbers are safe integers. *)
Fixpoint safe_numbers (d : data) : bool :=
  match d with
  | DNum n => safe_integer n
  | DArr items => forallb safe_numbers items
  | DObj props => forallb (fun kd => match kd with (_, d') => safe_numbers d' end) props
  | _ => true
  end.

(* ================================================================== *)
(** ** [JSON.stringify] *)

Definition dquote : string := String "034"%char EmptyString.
Definition backslash : string := String "092"%char EmptyString.

Definition hex_digit (n : nat) : ascii :=
  match n with
  | 0 => "0" | 1 => "1" | 2 => "2" | 3 => "3" | 4 => "4" | 5 => "5"
  | 6 => "6" | 7 => "7" | 8 => "8" | 9 => "9" | 10 => "a" | 11 => "b"
  | 12 => "c" | 13 => "d" | 14 => "e" | _ => "f"
  end%char.

(** QuoteJSONString, one code unit at a time.  A string is read as UTF-8
    text; bytes from 0x80 up belong to characters that are copied as they
    are. *)
Definition quote_char (c : ascii) : string :=
  let n := nat_of_ascii c in
  if Nat.eqb n 8 then backslash ++ "b"
  else if Nat.eqb n 9 then backslash ++ "t"
  else if Nat.eqb n 10 then backslash ++ "n"
  else if Nat.eqb n 12 then backslash ++ "f"
  else if Nat.eqb n 13 then backslash ++ "r"
  else if Nat.eqb n 34 then backslash ++ dquote
  else if Nat.eqb n 92 then backslash ++ backslash
  else if Nat.ltb n 32 then
    backslash ++ "u00" ++ String (hex_digit (n / 16)) (String (hex_digit (n mod 16)) EmptyString)
  else String c EmptyString.

Fixpoint quote_chars (s : string) : string :=
  match s with
  | EmptyString => EmptyString
  | String c s' => quote_char c ++ quote_chars s'
  end.

Definition quote (s : string) : string := dquote ++ quote_chars s ++ dquote.

(** Number::toString on the integers, in plain decimal.  That is what
    JavaScript prints for the safe integers, those of magnitude below
    2^53: beyond them not every integer is a Number, what is printed is
    the shortest digits that read back as the same Number, and from 10^21
    on it is printed with an exponent.  Statuses, lengths and indexes are
    safe integers; for the numbers of a caller, [safe_integer] says so. *)
Definition number_to_string (n : Z) : string :=
  NilZero.string_of_int (Z.to_int n).

(** What serializing one property gives: a piece of text, [undefined]
    (the property is dropped, or printed as null inside an array), or an
    exception.  [Exhausted] is the model's own: the recursion ran out of
    fuel. *)
Inductive ser_result : Type :=
| SerStr (s : string)
| SerUndefined
| SerThrow (name message : string)
| Exhausted.

(** SerializeJSONArray, after its elements: the first exception met from
    the left wins, [undefined] prints as null. *)
Fixpoint elements (rs : list ser_result) : ser_result + list string :=
  match rs with
  | [] => inr []
  | r :: rs' =>
      match r with
      | SerStr s =>
          match elements rs' with inr ss => inr (s :: ss) | inl a => inl a end
      | SerUndefined =>
          match elements rs' with inr ss => inr ("null" :: ss) | inl a => inl a end
      | SerThrow _ _ | Exhausted => inl r
      end
  end.

Definition ser_array (rs : list ser_result) : ser_result :=
  match elements rs with
  | inl a => a
  | inr ss => SerStr ("[" ++ String.concat "," ss ++ "]")
  end.

(** SerializeJSONObject, after its property values: a property whose
    value gives [undefined] is left out. *)
Fixpoint members (krs : list (string * ser_result)) : ser_result + list string :=
  match krs with
  | [] => inr []
  | (k, r) :: krs' =>
      match r with
      | SerStr s =>
          match members krs' with
          | inr ss => inr ((quote k ++ ":" ++ s) :: ss)
          | inl a => inl a
          end
      | SerUndefined => members krs'
      | SerThrow _ _ | Exhausted => inl r
      end
  end.

Definition ser_object (krs : list (string * ser_result)) : ser_result :=
  match members krs with
  | inl a => a
  | inr ss => SerStr ("{" ++ String.concat "," ss ++ "}")
  end.

Definition on_stack (l : loc) (stack : list loc) : bool :=
  existsb (Nat.eqb l) stack.

(** SerializeJSONProperty over the store.  [stack] holds the objects
    being serialized, innermost first; meeting one of them again is the
    circular-structure TypeError.  One unit of fuel is spent per level of
    nesting. *)
Fixpoint ser (fuel : nat) (h : heap) (stack : list loc) (v : value) {struct fuel}
  : ser_result :=
  match v with
  | VUndefined => SerUndefined
  | VNull => SerStr "null"
  | VBool b => SerStr (if b then "true" else "false")
  | VNum n => SerStr (number_to_string n)
  | VBigInt _ => SerThrow "TypeError" "Do not know how to serialize a BigInt"
  | VStr s => SerStr (quote s)
  | VRef l =>
      match nth_error h l with
      | None => SerUndefined (* a reference to nothing: no JavaScript value is one *)
      | Some o =>
          if on_stack l stack
          then SerThrow "TypeError" "Converting circular structure to JSON"
          else
            match fuel with
            | 0 => Exhausted
            | S fuel' =>
                match o with
                | OArr items => ser_array (map (ser fuel' h (l :: stack)) items)
                | OObj props =>
                    ser_object
                      (map (fun kv => match kv with
                                      | (k, v') => (k, ser fuel' h (l :: stack) v')
                                      end) props)
                end
            end
      end
  end.

(** The stack holds distinct objects of the store, so the nesting is never
    deeper than the store is long: this much fuel is always enough
    (lemma [ser_enough_fuel]). *)
Definition stringify (h : heap) (v : value) : ser_result :=
  ser (S (length h)) h [] v.

(** The JSON text of data written as a literal. *)
Fixpoint json (d : data) : ser_result :=
  match d with
  | DUndefined => SerUndefined
  | DNull => SerStr "null"
  | DBool b => SerStr (if b then "true" else "false")
  | DNum n => SerStr (number_to_string n)
  | DBigInt _ => SerThrow "TypeError" "Do not know how to serialize a BigInt"
  | DStr s => SerStr (quote s)
  | DArr items => ser_array (map json items)
  | DObj props =>
      ser_object (map (fun kd => match kd with (k, d') => (k, json d') end) props)
  end.

Fixpoint depth (d : data) : nat :=
  match d with
  | DArr items => S (list_max (map depth items))
  | DObj props =>
      S (list_max (map (fun kd => match kd with (_, d') => depth d' end) props))
  | _ => 0
  end.

(** [denotes h v d]: following the references of [v] through [h] gives
    the finite data [d].  A value that reaches itself denotes nothing. *)
Inductive denotes (h : heap) : value -> data -> Prop :=
| den_undefined : denotes h VUndefined DUndefined
| den_null : denotes h VNull DNull
| den_bool b : denotes h (VBool b) (DBool b)
| den_num n : denotes h (VNum n) (DNum n)
| den_bigint n : denotes h (VBigInt n) (DBigInt n)
| den_str s : denotes h (VStr s) (DStr s)
| den_arr l items ds :
    nth_error h l = Some (OArr items) ->
    denotes_items h items ds ->
    denotes h (VRef l) (DArr ds)
| den_obj l props dps :
    nth_error h l = Some (OObj props) ->
    denotes_props h props dps ->
    denotes h (VRef l) (DObj dps)
with denotes_items (h : heap) : list value -> list data -> Prop :=
| den_nil : denotes_items h [] []
| den_cons v d vs ds :
    denotes h v d -> denotes_items h vs ds -> denotes_items h (v :: vs) (d :: ds)
with denotes_props (h : heap) : list (string * value) -> list (string * data) -> Prop :=
| den_pnil : denotes_props h [] []
| den_pcons k v d ps dps :
    denotes h v d -> denotes_props h ps dps ->
    denotes_props h ((k, v) :: ps) ((k, d) :: dps).

Scheme denotes_mind := Minimality for denotes Sort Prop
  with denotes_items_mind := Minimality for denotes_items Sort Prop
  with denotes_props_mind := Minimality for denotes_props Sort Prop.
Combined Scheme denotes_mutind
  from denotes_mind, denotes_items_mind, denotes_props_mind.


(** Notions used to reason about the serializer. *)

(** What [elements] and [members] give up with: an exception or
    exhaustion. *)
Definition abnormal (r : ser_result) : Prop :=
  match r with SerThrow _ _ | Exhausted => True | _ => False end.

(** [approx r r']: [r] is [r'], unless the fuel ran out first. *)
Definition approx (r r' : ser_result) : Prop := r = r' \/ r = Exhausted.

Definition approx_member (kr kr' : string * ser_result) : Prop :=
  fst kr = fst kr' /\ approx (snd kr) (snd kr').

(** Every object on the stack denotes something deeper than [n]. *)
Definition stack_above (h : heap) (stack : list loc) (n : nat) : Prop :=
  forall l d, In l stack -> denotes h (VRef l) d -> n < depth d.

(** The objects an object refers to directly, and stores all of whose
    references lead to objects they hold, as those of a running program
    do. *)
Definition value_refs (v : value) : list loc :=
  match v with VRef l => [l] | _ => [] end.

Definition refs_of (o : object) : list loc :=
  match o with
  | OArr items => flat_map value_refs items
  | OObj props => flat_map (fun kv => value_refs (snd kv)) props
  end.

Definition closed (h : heap) : Prop :=
  forall l o, nth_error h l = Some o ->
    forall l', In l' (refs_of o) -> l' < length h.

Definition is_array (h : heap) (v : value) : bool :=
  match v with
  | VRef l => match nth_error h l with Some (OArr _) => true | _ => false end
  | _ => false
  end.

(* ================================================================== *)
(** ** The host: exceptions, the transport, responses *)

(** A thrown value (or the reason of a rejected promise) is either an
    error object made by code modelled here, or whatever a collaborator
    raised, which the client can only hand on. *)
Inductive exn (E : Type) : Type :=
| JsError (name message : string)
| HostError (e : E).
Arguments JsError {E} name message.
Arguments HostError {E} e.

Inductive completion (E A : Type) : Type :=
| Normal (a : A)
| Throw (e : exn E).
Arguments Normal {E A} a.
Arguments Throw {E A} e.

(** The second argument of [fetch], as the client builds it. *)
Record RequestInit : Type := {
  method : string;
  headers : list (string * string);
  body : option string
}.

(** The members of a response that the client touches.  [World] is the
    state of everything behind the transport. *)
Class Response (World E R : Type) : Type := {
  ok : R -> bool;
  status : R -> Z;
  statusText : R -> string;
  text : R -> World -> completion E string * World
}.

(** [typeof fetch], awaited: the call settles with a response or with a
    rejection (a synchronous throw ends the same way under [await]). *)
Definition Fetch (World E R : Type) : Type :=
  option string -> RequestInit -> World -> completion E R * World.

(** What went out to the collaborators, in order. *)
Inductive call (R : Type) : Type :=
| CallFetch (input : option string) (init : RequestInit)
| CallText (r : R).
Arguments CallFetch {R} input init.
Arguments CallText {R} r.

Definition is_request {R} (c : call R) : bool :=
  match c with CallFetch _ _ => true | CallText _ => false end.

Section Client.

Context {World E R : Type} {RL : Response World E R}.

(** [interface NexusClientOptions]; a slot typed [string] holds a string
    or, when the caller left it out, [undefined]. *)
Record NexusClientOptions : Type := {
  opt_url : option string;
  opt_token : option string;
  opt_fetch : option (Fetch World E R)
}.

(** The fields of a [NexusClient] object. *)
Record NexusClient : Type := {
  url : option string;
  token : option string;
  fetchFn : Fetch World E R
}.

(** What a constructor or method call runs on.  [this] is the receiver;
    for the constructor, the object that [new] has just made.  The
    transport works on [world] alone: it is handed strings, and the
    caller's objects are out of its reach.  [calls] records each call
    made to a collaborator. *)
Record state : Type := {
  this : NexusClient;              (* the receiver of the running method *)
  store : heap;                    (* the caller's objects *)
  global_fetch : Fetch World E R;  (* the global [fetch] *)
  world : World;
  calls : list (call R)
}.

(** Code that runs to a completion, normal or abrupt, and leaves a
    state.  An [async] body is run through: [await] on a settled promise
    is its value or its rejection thrown. *)
Definition Js (A : Type) : Type := state -> completion E A * state.

Definition ret {A} (a : A) : Js A := fun s => (Normal a, s).

Definition throw {A} (e : exn E) : Js A := fun s => (Throw e, s).

Definition bind {A B} (m : Js A) (k : A -> Js B) : Js B :=
  fun s =>
    match m s with
    | (Normal a, s') => k a s'
    | (Throw e, s') => (Throw e, s')
    end.

Notation "x <- m ;; k" := (bind m (fun x => k))
  (at level 61, m at next level, right associativity).
Notation "m ;; k" := (bind m (fun _ => k))
  (at level 61, right associativity).

Definition get_this : Js NexusClient := fun s => (Normal (this s), s).

Definition get_global_fetch : Js (Fetch World E R) :=
  fun s => (Normal (global_fetch s), s).

Definition set_this (c : NexusClient) : Js unit :=
  fun s =>
    (Normal tt,
     {| this := c; store := store s; global_fetch := global_fetch s;
        world := world s; calls := calls s |}).

Definition set_url (v : option string) : Js unit :=
  c <- get_this ;; set_this {| url := v; token := token c; fetchFn := fetchFn c |}.

Definition set_token (v : option string) : Js unit :=
  c <- get_this ;; set_this {| url := url c; token := v; fetchFn := fetchFn c |}.

Definition set_fetchFn (f : Fetch World E R) : Js unit :=
  c <- get_this ;; set_this {| url := url c; token := token c; fetchFn := f |}.

Definition Array_isArray (v : value) : Js bool :=
  fun s => (Normal (is_array (store s) v), s).

(** An array literal makes a new object. *)
Definition array_literal (items : list value) : Js value :=
  fun s =>
    (Normal (VRef (length (store s))),
     {| this := this s; store := (store s ++ [OArr items])%list;
        global_fetch := global_fetch s; world := world s; calls := calls s |}).

(** [JSON.stringify(v)]: text, [undefined], or the serializer's
    exception.  The last case stands for the engine giving up on nesting
    too deep for it, which [stringify] never does. *)
Definition JSON_stringify (v : value) : Js (option string) :=
  fun s =>
    match stringify (store s) v with
    | SerStr t => (Normal (Some t), s)
    | SerUndefined => (Normal None, s)
    | SerThrow n m => (Throw (JsError n m), s)
    | Exhausted => (Throw (JsError "RangeError" "Maximum call stack size exceeded"), s)
    end.

(** [await f(input, init)] *)
Definition await_fetch (f : Fetch World E R) (input : option string)
    (init : RequestInit) : Js R :=
  fun s =>
    let (c, w) := f input init (world s) in
    (c, {| this := this s; store := store s; global_fetch := global_fetch s;
           world := w; calls := (calls s ++ [CallFetch input init])%list |}).

(** [await r.text()] *)
Definition await_text (r : R) : Js string :=
  fun s =>
    let (c, w) := text r (world s) in
    (c, {| this := this s; store := store s; global_fetch := global_fetch s;
           world := w; calls := (calls s ++ [CallText r])%list |}).

(** ToBoolean on a string-or-undefined slot. *)
Definition truthy (x : option string) : bool :=
  match x with
  | Some s => negb (String.eqb s "")
  | None => false
  end.

(** A template-literal substitution of such a slot. *)
Definition template (x : option string) : string :=
  match x with
  | Some s => s
  | None => "undefined"
  end.

(** [x || y] on a slot holding a function or [undefined]: [y] is only
    evaluated when [x] is missing. *)
Definition or_else {A} (x : option A) (y : Js A) : Js A :=
  match x with Some a => ret a | None => y end.

(* ================================================================== *)
(** ** [class NexusClient] *)

Definition ConfigurationError : exn E :=
  JsError "Error" "NexusClient requires both `url` and `token`.".

Definition DeliveryError (message : string) : exn E :=
  JsError "Error" message.

(** The constructor body, run on the fresh object as [this]. *)
Definition constructor (options : NexusClientOptions) : Js unit :=
  set_url (opt_url options) ;;
  set_token (opt_token options) ;;
  f <- or_else (opt_fetch options) get_global_fetch ;;
  set_fetchFn f ;;
  this <- get_this ;;
  if negb (truthy (url this)) || negb (truthy (token this))
  then throw ConfigurationError
  else ret tt.

Definition request_init (tok : option string) (serialized : option string)
  : RequestInit :=
  {| method := "POST";
     headers := [("Content-Type", "application/json");
                 ("Authorization", "Bearer " ++ template tok)];
     body := serialized |}.

Definition failure_message (response : R) (errorBody : string) : string :=
  "Failed to send event(s): " ++ number_to_string (status response) ++ " "
    ++ statusText response ++ " - " ++ errorBody.

(** [const payload = Array.isArray(events) ? events : [events];] *)
Definition payload_of (events : value) : Js value :=
  is_arr <- Array_isArray events ;;
  if is_arr then ret events else array_literal [events].

Definition send (events : value) : Js R :=
  payload <- payload_of events ;;
  this <- get_this ;;
  serialized <- JSON_stringify payload ;;
  response <- await_fetch (fetchFn this) (url this)
                (request_init (token this) serialized) ;;
  if negb (ok response) then
    errorBody <- await_text response ;;
    throw (DeliveryError (failure_message response errorBody))
  else ret response.

End Client.

Arguments NexusClientOptions : clear implicits.
Arguments NexusClient : clear implicits.
Arguments state : clear implicits.

Notation "x <- m ;; k" := (bind m (fun x => k))
  (at level 61, m at next level, right associativity).
Notation "m ;; k" := (bind m (fun _ => k))
  (at level 61, right associativity).

(** The calls one [send] adds to the log, and the body a call carries. *)
Definition new_calls {World E R} {RL : Response World E R}
    (events : value) (s : state World E R) : list (call R) :=
  skipn (length (calls s)) (calls (snd (send events s))).


(* ================================================================== *)
(** ** The wire format *)

(** The wire shape the specification asks for: a batch goes out as it
    is, anything else inside a one-element array. *)
Definition is_batch (d : data) : bool :=
  match d with DArr _ => true | _ => false end.

Definition wire (d : data) : data :=
  if is_batch d then d else DArr [d].

Definition requests {R} (log : list (call R)) : list (call R) :=
  filter is_request log.

(* ================================================================== *)
(** ** A host for running the client: the mocks of [index.test.ts] *)

(** A response as the tests build it; the world counts the requests the
    mocked transport has answered. *)
Record MockResponse : Type := {
  m_ok : bool;
  m_status : Z;
  m_statusText : string;
  m_text : completion string string
}.

#[export] Instance MockResponse_Response : Response nat string MockResponse := {|
  ok := m_ok;
  status := m_status;
  statusText := m_statusText;
  text := fun r w => (m_text r, w)
|}.

Definition mockResponse (st : Z) (is_ok : bool) : MockResponse :=
  {| m_ok := is_ok;
     m_status := st;
     m_statusText := if Z.eqb st 200 then "OK" else "Error";
     m_text := Normal "" |}.

Definition mockResolvedValue (r : MockResponse) : Fetch nat string MockResponse :=
  fun _ _ w => (Normal r, S w).

Definition mockRejectedValue (e : exn string) : Fetch nat string MockResponse :=
  fun _ _ w => (Throw e, S w).

Definition MockState : Type := state nat string MockResponse.

(** A state in which [new NexusClient(options)] can run: the fresh
    object, the caller's store, nothing sent yet. *)
Definition fresh_state (h : heap) (g : Fetch nat string MockResponse) : MockState :=
  {| this := {| url := None; token := None; fetchFn := g |};
     store := h; global_fetch := g; world := 0%nat; calls := [] |}.

(** A state in which a method of the client [c] can run. *)
Definition client_state (c : NexusClient nat string MockResponse) (h : heap)
  : MockState :=
  {| this := c; store := h; global_fetch := fetchFn c; world := 0%nat; calls := [] |}.

Definition test_client (f : Fetch nat string MockResponse)
  : NexusClient nat string MockResponse :=
  {| url := Some "https://api.test/events"; token := Some "abc"; fetchFn := f |}.

(** [{type: "x"}] *)
Definition event_x : object := OObj [("type", VStr "x")].

(** [const event = {type: 'circular'}; event.self = event;] at address 0 *)
Definition event_circular : object := OObj [("type", VStr "circular"); ("self", VRef 0)].

(** [{type: "y"}] *)
Definition event_y : object := OObj [("type", VStr "y")].

(** The store of a caller holding [x], [y] and the batch [[x, y, x]]. *)
Definition store_batch : heap := [event_x; event_y; OArr [VRef 0; VRef 1; VRef 0]].

(** [{"type":"x"}] and [{"type":"y"}] as JSON text. *)
Definition text_x : string :=
  "{" ++ dquote ++ "type" ++ dquote ++ ":" ++ dquote ++ "x" ++ dquote ++ "}".

Definition text_y : string :=
  "{" ++ dquote ++ "type" ++ dquote ++ ":" ++ dquote ++ "y" ++ dquote ++ "}".

Definition response_200 : MockResponse := mockResponse 200 true.

(** The response of the 404 scenario, and one whose body cannot be read. *)
Definition response_404 : MockResponse :=
  {| m_ok := false; m_status := 404; m_statusText := "Not Found";
     m_text := Normal "missing" |}.

Definition response_unreadable : MockResponse :=
  {| m_ok := false; m_status := 500; m_statusText := "Error";
     m_text := Throw (HostError "body stream already read") |}.

Definition options_valid : NexusClientOptions nat string MockResponse :=
  {| opt_url := Some "https://api.example.com"; opt_token := Some "valid-token";
     opt_fetch := None |}.

Definition options_no_url : NexusClientOptions nat string MockResponse :=
  {| opt_url := Some ""; opt_token := Some "token"; opt_fetch := None |}.

Definition options_no_token : NexusClientOptions nat string MockResponse :=
  {| opt_url := Some "https://api.example.com"; opt_token := None;
     opt_fetch := None |}.


(* ================================================================== *)
(** * The callers of [send]

    The demos wrap the client: a transport that retries
    ([demo/custom-fetch.ts]), validation, retry with backoff and a circuit
    breaker (the error-handling part of [demo/analytics-tracking.ts]), a
    batcher ([demo/batch-events.ts]).  Console output is left out
    throughout. *)

(** What they take from the host besides the transport.  Doubles are
    read as rationals. *)
Class Host (World E : Type) : Type := {
  Date_now : World -> Z;                           (* [Date.now()] *)
  setTimeout : QArith_base.Q -> World -> World;    (* a wait of so many ms *)
  Math_random : World -> QArith_base.Q * World;
  host_message : E -> option string;               (* [error.message] *)
  Date_isNaN : heap -> value -> bool               (* [isNaN(new Date(v).getTime())] *)
}.

(** [s.includes(sub)] *)
Fixpoint includes (s sub : string) : bool :=
  String.prefix sub s ||
  match s with
  | EmptyString => false
  | String _ s' => includes s' sub
  end.

(** ToBoolean *)
Definition truthy_value (v : value) : bool :=
  match v with
  | VUndefined | VNull => false
  | VBool b => b
  | VNum n | VBigInt n => negb (Z.eqb n 0)
  | VStr s => negb (String.eqb s "")
  | VRef _ => true
  end.

Fixpoint assoc {A} (key : string) (props : list (string * A)) : option A :=
  match props with
  | [] => None
  | (k, a) :: props' => if String.eqb k key then Some a else assoc key props'
  end.

(** The own property [key] of what [v] refers to, for a key that is
    neither an array index nor [length]. *)
Definition own_property (h : heap) (v : value) (key : string) : option value :=
  match v with
  | VRef l =>
      match nth_error h l with
      | Some (OObj props) => assoc key props
      | _ => None
      end
  | _ => None
  end.

(** The attempt numbers of [for (let attempt = 1; attempt <= n; attempt++)]. *)
Definition attempts_upto (n : Z) : list Z :=
  map Z.of_nat (seq 1 (Z.to_nat n)).

(** ['closed' | 'open' | 'half-open'] *)
Inductive circuit : Type := Closed | Open | HalfOpen.

Record CircuitBreakerOptions : Type := {
  failureThreshold : Z;
  recoveryTimeout : Z;
  halfOpenRequests : Z
}.

(** The fields of a [CircuitBreaker]; [circuit_state] is its [state]. *)
Record CircuitBreaker : Type := {
  failures : Z;
  lastFailureTime : Z;
  circuit_state : circuit;
  options : CircuitBreakerOptions
}.

(** [new CircuitBreaker(options)], with the default of the parameter *)
Definition new_CircuitBreaker (opts : option CircuitBreakerOptions) : CircuitBreaker :=
  {| failures := 0; lastFailureTime := 0; circuit_state := Closed;
     options := match opts with
                | Some o => o
                | None => {| failureThreshold := 5; recoveryTimeout := 60000;
                             halfOpenRequests := 3 |}
                end |}.

(** [getState()] *)
Definition getState (self : CircuitBreaker) : circuit * Z * Z :=
  (circuit_state self, failures self, lastFailureTime self).

(** [stats] and the fields of an [EventBatcher] that [flush] works on;
    [events] is the private array, the client is the receiver [this] of
    the state, the interval timer is left out. *)
Record BatcherStats : Type := {
  batches : Z;
  totalEvents : Z;
  errors : Z
}.

Record EventBatcher : Type := {
  events : list value;
  batchSize : Z;
  stats : BatcherStats
}.

Section Callers.

Context {World E R : Type} {RL : Response World E R} {HO : Host World E}.

Local Abbreviation State := (state World E R).
Local Abbreviation Js' := (@Js World E R).
Local Abbreviation Q := QArith_base.Q.

(** [try { m } catch (error) { handler }] *)
Definition try_catch {A} (m : Js' A) (handler : exn E -> Js' A) : Js' A :=
  fun s =>
    match m s with
    | (Normal a, s') => (Normal a, s')
    | (Throw e, s') => handler e s'
    end.

Definition now : Js' Z := fun s => (Normal (Date_now (world s)), s).

(** [await new Promise(resolve => setTimeout(resolve, ms))] *)
Definition sleep (ms : Q) : Js' unit :=
  fun s =>
    (Normal tt,
     {| this := this s; store := store s; global_fetch := global_fetch s;
        world := setTimeout ms (world s); calls := calls s |}).

Definition random : Js' Q :=
  fun s =>
    (Normal (fst (Math_random (world s))),
     {| this := this s; store := store s; global_fetch := global_fetch s;
        world := snd (Math_random (world s)); calls := calls s |}).

(** [error.message]; the thrown value is an object. *)
Definition message_of (error : exn E) : option string :=
  match error with
  | JsError _ m => Some m
  | HostError e => host_message e
  end.

(** The error classes of the demo.  Their [code] and [details], which
    nothing modelled here reads, are left out. *)
Definition NexusError (message : string) : exn E := JsError "NexusError" message.
Definition ValidationError (message : string) : exn E := JsError "ValidationError" message.
Definition NetworkError (message : string) : exn E := JsError "NetworkError" message.

(** [error instanceof ValidationError] *)
Definition is_ValidationError (error : exn E) : bool :=
  match error with
  | JsError n _ => String.eqb n "ValidationError"
  | HostError _ => false
  end.

(* ------------------------------------------------------------------ *)
(** ** Methods of an object with fields of its own

    A method of [Self] runs on its receiver and on the state, and leaves
    both, also when it throws. *)

Definition Method (Self A : Type) : Type :=
  Self -> State -> completion E A * Self * State.

Definition mret {Self A} (a : A) : Method Self A := fun o s => (Normal a, o, s).

Definition mthrow {Self A} (e : exn E) : Method Self A := fun o s => (Throw e, o, s).

Definition mbind {Self A B} (m : Method Self A) (k : A -> Method Self B)
  : Method Self B :=
  fun o s =>
    match m o s with
    | (Normal a, o', s') => k a o' s'
    | (Throw e, o', s') => (Throw e, o', s')
    end.

Definition mtry {Self A} (m : Method Self A) (handler : exn E -> Method Self A)
  : Method Self A :=
  fun o s =>
    match m o s with
    | (Normal a, o', s') => (Normal a, o', s')
    | (Throw e, o', s') => handler e o' s'
    end.

Definition lift {Self A} (m : Js' A) : Method Self A :=
  fun o s => let (c, s') := m s in (c, o, s').

Definition get_self {Self} : Method Self Self := fun o s => (Normal o, o, s).

Definition put_self {Self} (o' : Self) : Method Self unit := fun _ s => (Normal tt, o', s).

Notation "x <~ m ;; k" := (mbind m (fun x => k))
  (at level 61, m at next level, right associativity).

(* ------------------------------------------------------------------ *)
(** ** [createRetryFetch] ([demo/custom-fetch.ts]) *)

(** The loop, from [attempt] on; [fetch] is the global [fetch]. *)
Fixpoint retry_attempts (fetch : Fetch World E R) (maxRetries retryDelay : Z)
    (attempts : list Z) (lastError : option (exn E))
    (url : option string) (init : RequestInit) (w : World)
  : completion E R * World :=
  match attempts with
  | [] =>
      (Throw (match lastError with
              | Some error => error
              | None => JsError "Error" "All retries failed"
              end), w)
  | attempt :: rest =>
      let caught (error : exn E) (w1 : World) :=
        retry_attempts fetch maxRetries retryDelay rest (Some error) url init
          (if Z.ltb attempt maxRetries
           then setTimeout (QArith_base.inject_Z (retryDelay * attempt)) w1
           else w1) in
      match fetch url init w with
      | (Normal response, w1) =>
          if Z.geb (status response) 500
          then caught (JsError "Error"
                         ("Server error: " ++ number_to_string (status response))) w1
          else (Normal response, w1)
      | (Throw error, w1) => caught error w1
      end
  end.

Definition createRetryFetch (fetch : Fetch World E R) (maxRetries retryDelay : option Z)
  : Fetch World E R :=
  let maxRetries := match maxRetries with Some n => n | None => 3%Z end in
  let retryDelay := match retryDelay with Some n => n | None => 1000%Z end in
  fun url init w =>
    retry_attempts fetch maxRetries retryDelay (attempts_upto maxRetries) None url init w.

(* ------------------------------------------------------------------ *)
(** ** [EventValidator] ([demo/analytics-tracking.ts]) *)

(** [v.key], for a key that no built-in object has. *)
Definition get (v : value) (key : string) : Js' value :=
  fun s =>
    match v with
    | VUndefined =>
        (Throw (JsError "TypeError"
                  ("Cannot read properties of undefined (reading '" ++ key ++ "')")), s)
    | VNull =>
        (Throw (JsError "TypeError"
                  ("Cannot read properties of null (reading '" ++ key ++ "')")), s)
    | _ =>
        (Normal (match own_property (store s) v key with
                 | Some x => x
                 | None => VUndefined
                 end), s)
    end.

(** [key in v], for such a key. *)
Definition has (key : string) (v : value) : Js' bool :=
  fun s =>
    match v with
    | VRef _ =>
        (Normal (match own_property (store s) v key with
                 | Some _ => true
                 | None => false
                 end), s)
    | _ =>
        (Throw (JsError "TypeError"
                  ("Cannot use 'in' operator to search for '" ++ key ++ "'")), s)
    end.

(** [isNaN(new Date(v).getTime())] *)
Definition invalid_date (v : value) : Js' bool :=
  fun s =>
    match v with
    | VBigInt _ =>
        (Throw (JsError "TypeError" "Cannot convert a BigInt value to a number"), s)
    | _ => (Normal (Date_isNaN (store s) v), s)
    end.

Definition validate (event : value) : Js' unit :=
  type <- get event "type" ;;
  (if negb (truthy_value type)
   then throw (ValidationError "Event type is required")
   else ret tt) ;;
  type <- match type with
          | VStr t =>
              if Nat.eqb (String.length t) 0
              then throw (ValidationError "Event type must be a non-empty string")
              else ret t
          | _ => throw (ValidationError "Event type must be a non-empty string")
          end ;;
  (if includes type " "
   then throw (ValidationError "Event type should not contain spaces")
   else ret tt) ;;
  present <- has "timestamp" event ;;
  timestamp <- (if present then get event "timestamp" else ret VUndefined) ;;
  (if present && truthy_value timestamp
   then
     invalid <- invalid_date timestamp ;;
     if invalid
     then throw (ValidationError "Invalid timestamp format")
     else ret tt
   else ret tt) ;;
  serialized <- JSON_stringify event ;;
  match serialized with
  | Some _ => ret tt
  | None =>
      throw (JsError "TypeError" "Cannot read properties of undefined (reading 'length')")
  end.

(** [events.forEach((event, index) => ...)], from [index] on *)
Fixpoint validate_each (items : list value) (index : Z) : Js' unit :=
  match items with
  | [] => ret tt
  | event :: rest =>
      try_catch (validate event)
        (fun error =>
           throw (ValidationError
                    ("Invalid event at index " ++ number_to_string index ++ ": "
                       ++ template (message_of error)))) ;;
      validate_each rest (index + 1)
  end.

(** The elements of the array [v] refers to. *)
Definition items_of (h : heap) (v : value) : list value :=
  match v with
  | VRef l => match nth_error h l with Some (OArr items) => items | _ => [] end
  | _ => []
  end.

Definition validateBatch (events : value) : Js' unit :=
  is_arr <- Array_isArray events ;;
  (if negb is_arr
   then throw (ValidationError "Events must be an array")
   else ret tt) ;;
  items <- (fun s => (Normal (items_of (store s) events), s)) ;;
  let length := Z.of_nat (List.length items) in
  (if Z.eqb length 0
   then throw (ValidationError "Events array cannot be empty")
   else ret tt) ;;
  (if Z.gtb length 1000
   then throw (ValidationError
                 ("Batch too large: " ++ number_to_string length ++ " events (max 1000)"))
   else ret tt) ;;
  validate_each items 0.

(* ------------------------------------------------------------------ *)
(** ** [sendWithRetry] ([demo/analytics-tracking.ts]) *)

Record RetryOptions : Type := {
  maxRetries : option Z;
  initialDelay : option Q;
  maxDelay : option Q;
  shouldRetry : option (exn E -> bool)
}.

(** The default of [shouldRetry]. *)
Definition default_shouldRetry (error : exn E) : bool :=
  match message_of error with
  | Some m =>
      includes m "fetch failed" || includes m "HTTP 5" ||
      includes m "ETIMEDOUT" || includes m "ECONNREFUSED"
  | None => false
  end.

(** [// Validate before sending] *)
Definition validate_input (event : value) : Js' unit :=
  is_arr <- Array_isArray event ;;
  if is_arr then validateBatch event else validate event.

(** One pass through the [try] block. *)
Definition attempt_send (event : value) : Js' R :=
  validate_input event ;;
  response <- send event ;;
  if negb (ok response) then
    errorText <- await_text response ;;
    throw (NetworkError
             ("HTTP " ++ number_to_string (status response) ++ ": " ++ errorText))
  else ret response.

(** The wait before the next attempt and the delay after it; none
    after the last attempt. *)
Definition backoff (attempt maxRetries : Z) (maxDelay delay : Q) : Js' Q :=
  if Z.ltb attempt maxRetries then
    sleep delay ;;
    jitter <- random ;;
    ret (Qminmax.Qmin
           (QArith_base.Qplus
              (QArith_base.Qmult delay (QArith_base.inject_Z 2))
              (QArith_base.Qmult jitter (QArith_base.inject_Z 1000)))
           maxDelay)
  else ret delay.

(** The loop, from [attempt] on; the module's [client] is the receiver
    [this] of the state. *)
Fixpoint retry_send (event : value) (maxRetries : Z) (maxDelay : Q)
    (shouldRetry : exn E -> bool) (attempts : list Z)
    (lastError : option (exn E)) (delay : Q) : Js' R :=
  match attempts with
  | [] =>
      throw (NexusError
               ("Failed after " ++ number_to_string maxRetries ++ " attempts: "
                  ++ template (match lastError with
                               | Some error => message_of error
                               | None => None
                               end)))
  | attempt :: rest =>
      try_catch (attempt_send event)
        (fun error =>
           if is_ValidationError error then throw error
           else if match message_of error with
                   | Some m => includes m "HTTP 4"
                   | None => false
                   end then throw error
           else if negb (shouldRetry error) then throw error
           else
             delay <- backoff attempt maxRetries maxDelay delay ;;
             retry_send event maxRetries maxDelay shouldRetry rest (Some error) delay)
  end.

Definition sendWithRetry (event : value) (options : RetryOptions) : Js' R :=
  let maxRetries := match maxRetries options with Some n => n | None => 3%Z end in
  let initialDelay :=
    match initialDelay options with
    | Some d => d
    | None => QArith_base.inject_Z 1000
    end in
  let maxDelay :=
    match maxDelay options with
    | Some d => d
    | None => QArith_base.inject_Z 30000
    end in
  let shouldRetry :=
    match shouldRetry options with
    | Some f => f
    | None => default_shouldRetry
    end in
  retry_send event maxRetries maxDelay shouldRetry (attempts_upto maxRetries)
    None initialDelay.

(* ------------------------------------------------------------------ *)
(** ** [CircuitBreaker.execute] ([demo/analytics-tracking.ts]) *)

Definition set_circuit (st : circuit) (n : Z) : Method CircuitBreaker unit :=
  self <~ get_self ;;
  put_self {| failures := n; lastFailureTime := lastFailureTime self;
              circuit_state := st; options := options self |}.

Definition execute {T} (operation : Js' T) : Method CircuitBreaker T :=
  self <~ get_self ;;
  _ <~ match circuit_state self with
       | Open =>
           t <~ lift now ;;
           let timeSinceFailure := (t - lastFailureTime self)%Z in
           if Z.gtb timeSinceFailure (recoveryTimeout (options self))
           then set_circuit HalfOpen 0
           else mthrow (NexusError "Circuit breaker is open - service unavailable")
       | _ => mret tt
       end ;;
  mtry
    (result <~ lift operation ;;
     self <~ get_self ;;
     _ <~ match circuit_state self with
          | HalfOpen => set_circuit Closed 0
          | _ => mret tt
          end ;;
     mret result)
    (fun error =>
       self <~ get_self ;;
       t <~ lift now ;;
       _ <~ put_self {| failures := failures self + 1; lastFailureTime := t;
                        circuit_state := circuit_state self;
                        options := options self |} ;;
       self <~ get_self ;;
       _ <~ (if Z.geb (failures self) (failureThreshold (options self))
             then set_circuit Open (failures self)
             else mret tt) ;;
       mthrow error).

(* ------------------------------------------------------------------ *)
(** ** [EventBatcher.flush] ([demo/batch-events.ts]) *)

Definition set_events (evs : list value) : Method EventBatcher unit :=
  self <~ get_self ;;
  put_self {| events := evs; batchSize := batchSize self; stats := stats self |}.

Definition set_stats (st : BatcherStats) : Method EventBatcher unit :=
  self <~ get_self ;;
  put_self {| events := events self; batchSize := batchSize self; stats := st |}.

Definition flush : Method EventBatcher unit :=
  self <~ get_self ;;
  if Nat.eqb (List.length (events self)) 0 then mret tt
  else
    let items := events self in
    eventsToSend <~ lift (array_literal items) ;;
    _ <~ set_events [] ;;
    mtry
      (_ <~ lift (send eventsToSend) ;;
       self <~ get_self ;;
       _ <~ set_stats {| batches := batches (stats self) + 1;
                         totalEvents := totalEvents (stats self);
                         errors := errors (stats self) |} ;;
       self <~ get_self ;;
       set_stats {| batches := batches (stats self);
                    totalEvents := totalEvents (stats self)
                                   + Z.of_nat (List.length items);
                    errors := errors (stats self) |})
      (fun error =>
         self <~ get_self ;;
         _ <~ set_stats {| batches := batches (stats self);
                           totalEvents := totalEvents (stats self);
                           errors := errors (stats self) + 1 |} ;;
         self <~ get_self ;;
         set_events (items ++ events self)%list).

(** A computation that only looks at the store: it leaves the state as
    it is, and its outcome depends on the store alone. *)
Definition observer {A} (m : Js' A) : Prop :=
  (forall s, snd (m s) = s) /\
  (forall s s', store s = store s' -> fst (m s) = fst (m s')).

End Callers.

(* ================================================================== *)
(** ** A host for running the callers

    The clock reads the number of requests answered so far, in ms;
    waiting and [Math.random] leave the world alone; a rejection of the
    mocks carries its own text as its message; the dates of this host are
    the numbers and one ISO string. *)
#[export] Instance MockHost : Host nat string := {|
  Date_now := Z.of_nat;
  setTimeout := fun _ w => w;
  Math_random := fun w => (QArith_base.inject_Z 0, w);
  host_message := fun e => Some e;
  Date_isNaN := fun _ v =>
    match v with
    | VNum _ => false
    | VStr s => negb (String.eqb s "2024-01-01T10:00:00Z")
    | _ => true
    end
|}.

(** The state [s] at the time [t]. *)
Definition at_time (t : nat) (s : MockState) : MockState :=
  {| this := this s; store := store s; global_fetch := global_fetch s;
     world := t; calls := calls s |}.

Definition response_503 : MockResponse := mockResponse 503 false.

(** A transport that answers 503 once and 200 from then on. *)
Definition mockFlaky : Fetch nat string MockResponse :=
  fun _ _ w => (Normal (if Nat.eqb w 0 then response_503 else response_200), S w).

(** [{name: "x"}], [{type: 5}] and an event with a timestamp. *)
Definition event_untyped : object := OObj [("name", VStr "x")].

Definition event_numeric_type : object := OObj [("type", VNum 5)].

Definition event_stamped : object :=
  OObj [("type", VStr "page.view"); ("timestamp", VStr "2024-01-01T10:00:00Z")].

(** The store of a caller holding the batch [[x, {name: "x"}, x]]. *)
Definition store_invalid : heap :=
  [event_x; event_untyped; OArr [VRef 0; VRef 1; VRef 0]].

(** [sendWithRetry(event)] and [sendWithRetry(event, {maxRetries: 0})] *)
Definition options_default : RetryOptions (E := string) :=
  {| maxRetries := None; initialDelay := None; maxDelay := None; shouldRetry := None |}.

Definition options_no_retries : RetryOptions (E := string) :=
  {| maxRetries := Some 0%Z; initialDelay := None; maxDelay := None;
     shouldRetry := None |}.

(** A breaker that opens at the second failure and recovers after 10 ms,
    as it is once open. *)
Definition breaker_options : CircuitBreakerOptions :=
  {| failureThreshold := 2; recoveryTimeout := 10; halfOpenRequests := 3 |}.

Definition breaker_open : CircuitBreaker :=
  {| failures := 2; lastFailureTime := 0; circuit_state := Open;
     options := breaker_options |}.

Definition breaker_half_open : CircuitBreaker :=
  {| failures := 0; lastFailureTime := 0; circuit_state := HalfOpen;
     options := breaker_options |}.

(** A batcher with [x] and [y] queued. *)
Definition batcher_xy : EventBatcher :=
  {| events := [VRef 0; VRef 1]; batchSize := 50;
     stats := {| batches := 0; totalEvents := 0; errors := 0 |} |}.

(* ================================================================== *)
(** * Properties *)

Open Scope list_scope.

(** ** The serializer *)

Lemma on_stack_true l stack : on_stack l stack = true <-> In l stack.
Proof.
  unfold on_stack. rewrite existsb_exists. split.
  - intros [x [Hin Heq]]. apply Nat.eqb_eq in Heq. now subst.
  - intros Hin. exists l. split; [assumption | apply Nat.eqb_refl].
Qed.

Lemma on_stack_false l stack : on_stack l stack = false <-> ~ In l stack.
Proof.
  rewrite <- on_stack_true. destruct (on_stack l stack); split; congruence.
Qed.

Lemma elements_inl rs a : elements rs = inl a -> In a rs /\ abnormal a.
Proof.
  induction rs as [|r rs IH]; simpl; [discriminate|].
  destruct r; try (intros [= <-]; split; [now left | exact I]);
    destruct (elements rs); try discriminate;
    intros [= <-]; destruct (IH eq_refl); split; auto.
Qed.

Lemma members_inl krs a :
  members krs = inl a -> In a (map snd krs) /\ abnormal a.
Proof.
  induction krs as [|[k r] krs IH]; simpl; [discriminate|].
  destruct r; try (intros [= <-]; split; [now left | exact I]).
  - destruct (members krs); try discriminate.
    intros [= <-]. destruct (IH eq_refl). split; auto.
  - intros H. destruct (IH H). split; auto.
Qed.

Lemma ser_array_abnormal rs a :
  ser_array rs = a -> abnormal a -> In a rs.
Proof.
  unfold ser_array. destruct (elements rs) eqn:He.
  - intros ->. intros _. now apply elements_inl.
  - intros <-. contradiction.
Qed.

Lemma ser_object_abnormal krs a :
  ser_object krs = a -> abnormal a -> In a (map snd krs).
Proof.
  unfold ser_object. destruct (members krs) eqn:He.
  - intros ->. intros _. now apply members_inl.
  - intros <-. contradiction.
Qed.


(** *** Enough fuel *)

Lemma stack_room (n : nat) (stack : list loc) (l : loc) :
  NoDup stack -> (forall x, In x stack -> x < n) -> l < n -> ~ In l stack ->
  length stack < n.
Proof.
  intros Hnd Hlt Hl Hnin.
  assert (Hle : length (l :: stack) <= length (seq 0 n)).
  { apply NoDup_incl_length.
    - now constructor.
    - intros x [<- | Hx]; apply in_seq; [lia | specialize (Hlt _ Hx); lia]. }
  rewrite length_seq in Hle. simpl in Hle. lia.
Qed.

Lemma ser_fuel (fuel : nat) :
  forall (h : heap) (stack : list loc) (v : value),
    NoDup stack -> (forall x, In x stack -> x < length h) ->
    length h < fuel + length stack ->
    ser fuel h stack v <> Exhausted.
Proof.
  induction fuel as [|fuel IH]; intros h stack v Hnd Hlt Hlen;
    destruct v; simpl; try discriminate.
  - destruct (nth_error h l) eqn:Hl; [|discriminate].
    destruct (on_stack l stack) eqn:Hs; [discriminate|].
    apply on_stack_false in Hs.
    assert (l < length h) by (apply nth_error_Some; congruence).
    pose proof (stack_room _ _ _ Hnd Hlt H Hs). simpl in Hlen. lia.
  - destruct (nth_error h l) eqn:Hl; [|discriminate].
    destruct (on_stack l stack) eqn:Hs; [discriminate|].
    apply on_stack_false in Hs.
    assert (Hv : l < length h) by (apply nth_error_Some; congruence).
    assert (Hrec : forall v', ser fuel h (l :: stack) v' <> Exhausted).
    { intros v'. apply IH.
      - now constructor.
      - intros x [<- | Hx]; auto.
      - simpl. lia. }
    destruct o as [items | props]; intros Hex.
    + apply ser_array_abnormal in Hex; [|exact I].
      apply in_map_iff in Hex. destruct Hex as [v' [Hv' _]].
      exact (Hrec _ Hv').
    + apply ser_object_abnormal in Hex; [|exact I].
      rewrite map_map in Hex. apply in_map_iff in Hex.
      destruct Hex as [[k v'] [Hv' _]]. simpl in Hv'.
      exact (Hrec _ Hv').
Qed.

(** [stringify] always comes back with text, [undefined] or an
    exception. *)
Lemma ser_enough_fuel (h : heap) (v : value) : stringify h v <> Exhausted.
Proof.
  unfold stringify. apply ser_fuel.
  - constructor.
  - intros x [].
  - simpl. lia.
Qed.

(** *** Values that denote data *)

Lemma denotes_functional (h : heap) :
  (forall v d, denotes h v d -> forall d', denotes h v d' -> d = d') /\
  (forall vs ds, denotes_items h vs ds ->
     forall ds', denotes_items h vs ds' -> ds = ds') /\
  (forall ps dps, denotes_props h ps dps ->
     forall dps', denotes_props h ps dps' -> dps = dps').
Proof.
  apply denotes_mutind; intros.
  1-6: match goal with H : denotes _ _ _ |- _ => inversion H; reflexivity end.
  - inversion H2; subst; try congruence.
    assert (items0 = items) by congruence. subst. f_equal. auto.
  - inversion H2; subst; try congruence.
    assert (props0 = props) by congruence. subst. f_equal. auto.
  - inversion H; reflexivity.
  - inversion H3; subst. f_equal; auto.
  - inversion H; reflexivity.
  - inversion H3; subst. f_equal; [f_equal|]; auto.
Qed.

Lemma denotes_det (h : heap) (v : value) (d d' : data) :
  denotes h v d -> denotes h v d' -> d = d'.
Proof. intros H H'. exact (proj1 (denotes_functional h) _ _ H _ H'). Qed.

(** Allocation leaves what a value denotes alone. *)
Lemma denotes_grow (h h' : heap) :
  (forall v d, denotes h v d -> denotes (h ++ h') v d) /\
  (forall vs ds, denotes_items h vs ds -> denotes_items (h ++ h') vs ds) /\
  (forall ps dps, denotes_props h ps dps -> denotes_props (h ++ h') ps dps).
Proof.
  apply denotes_mutind; intros; try (constructor; assumption).
  - apply den_arr with (items := items); [|assumption].
    rewrite nth_error_app1; [assumption | apply nth_error_Some; congruence].
  - apply den_obj with (props := props); [|assumption].
    rewrite nth_error_app1; [assumption | apply nth_error_Some; congruence].
Qed.

Lemma denotes_is_array (h : heap) (v : value) (d : data) :
  denotes h v d -> is_array h v = is_batch d.
Proof. intros H. destruct H; simpl; try reflexivity; now rewrite H. Qed.

Lemma depth_item (d : data) (ds : list data) :
  In d ds -> depth d < depth (DArr ds).
Proof.
  intros Hin. simpl.
  assert (Hall : Forall (fun k => k <= list_max (map depth ds)) (map depth ds))
    by (apply list_max_le; lia).
  rewrite Forall_forall in Hall.
  specialize (Hall (depth d) (in_map depth _ _ Hin)). lia.
Qed.

Lemma depth_prop (k : string) (d : data) (dps : list (string * data)) :
  In (k, d) dps -> depth d < depth (DObj dps).
Proof.
  intros Hin. simpl.
  set (f := fun kd : string * data => match kd with (_, d') => depth d' end).
  assert (Hall : Forall (fun n => n <= list_max (map f dps)) (map f dps))
    by (apply list_max_le; lia).
  rewrite Forall_forall in Hall.
  specialize (Hall (f (k, d)) (in_map f _ _ Hin)). simpl in Hall. lia.
Qed.

Lemma elements_approx rs rs' :
  Forall2 approx rs rs' ->
  elements rs = elements rs' \/ elements rs = inl Exhausted.
Proof.
  induction 1 as [|r r' rs rs' [-> | ->] _ IH]; simpl; auto.
  destruct r'; auto; destruct IH as [-> | ->]; auto.
Qed.

Lemma ser_array_approx rs rs' :
  Forall2 approx rs rs' -> approx (ser_array rs) (ser_array rs').
Proof.
  intros H. unfold ser_array, approx.
  destruct (elements_approx _ _ H) as [-> | ->]; auto.
Qed.

Lemma members_approx krs krs' :
  Forall2 approx_member krs krs' ->
  members krs = members krs' \/ members krs = inl Exhausted.
Proof.
  induction 1 as [|[k r] [k' r'] krs krs' [Hk [Hr | Hr]] _ IH];
    simpl in *; subst; auto.
  destruct r'; auto; destruct IH as [-> | ->]; auto.
Qed.

Lemma ser_object_approx krs krs' :
  Forall2 approx_member krs krs' -> approx (ser_object krs) (ser_object krs').
Proof.
  intros H. unfold ser_object, approx.
  destruct (members_approx _ _ H) as [-> | ->]; auto.
Qed.

Lemma stack_above_push h stack l d d' :
  denotes h (VRef l) d -> stack_above h stack (depth d) -> depth d' < depth d ->
  stack_above h (l :: stack) (depth d').
Proof.
  intros Hd Hst Hlt l0 d0 [<- | Hin] Hd0.
  - now rewrite (denotes_det _ _ _ _ Hd0 Hd).
  - specialize (Hst _ _ Hin Hd0). lia.
Qed.

Lemma ser_denotes_approx (h : heap) :
  (forall v d, denotes h v d ->
     forall fuel stack, stack_above h stack (depth d) ->
       approx (ser fuel h stack v) (json d)) /\
  (forall vs ds, denotes_items h vs ds ->
     forall fuel stack, (forall d, In d ds -> stack_above h stack (depth d)) ->
       Forall2 approx (map (ser fuel h stack) vs) (map json ds)) /\
  (forall ps dps, denotes_props h ps dps ->
     forall fuel stack,
       (forall k d, In (k, d) dps -> stack_above h stack (depth d)) ->
       Forall2 approx_member
         (map (fun kv => match kv with (k, v') => (k, ser fuel h stack v') end) ps)
         (map (fun kd => match kd with (k, d') => (k, json d') end) dps)).
Proof.
  apply denotes_mutind; intros.
  1-6: destruct fuel; left; reflexivity.
  - assert (Hd : denotes h (VRef l) (DArr ds)) by (econstructor; eassumption).
    destruct fuel; simpl; rewrite H;
      (destruct (on_stack l stack) eqn:Hs;
       [ apply on_stack_true in Hs; specialize (H2 _ _ Hs Hd); lia | ]).
    + now right.
    + apply ser_array_approx, H1. intros d Hin.
      apply stack_above_push with (d := DArr ds); auto using depth_item.
  - assert (Hd : denotes h (VRef l) (DObj dps)) by (econstructor; eassumption).
    destruct fuel; simpl; rewrite H;
      (destruct (on_stack l stack) eqn:Hs;
       [ apply on_stack_true in Hs; specialize (H2 _ _ Hs Hd); lia | ]).
    + now right.
    + apply ser_object_approx, H1. intros k d Hin.
      apply stack_above_push with (d := DObj dps); eauto using depth_prop.
  - constructor.
  - simpl. constructor.
    + apply H0, H3. now left.
    + apply H2. intros d0 Hin. apply H3. now right.
  - constructor.
  - simpl. constructor.
    + split; [reflexivity|]. simpl. apply H0. apply (H3 k). now left.
    + apply H2. intros k0 d0 Hin. apply (H3 k0). now right.
Qed.

(** On a value that denotes data, [JSON.stringify] gives the JSON text
    of that data (or its exception). *)
Lemma stringify_denotes (h : heap) (v : value) (d : data) :
  denotes h v d -> stringify h v = json d.
Proof.
  intros Hd.
  destruct (proj1 (ser_denotes_approx h) _ _ Hd (S (length h)) []) as [Heq | Hex].
  - intros l d' [].
  - exact Heq.
  - now apply ser_enough_fuel in Hex.
Qed.

(** ** Running the client *)

Section Running.

Context {World E R : Type} {RL : Response World E R}.

Local Abbreviation State := (state World E R).
Local Abbreviation Js' := (@Js World E R).

Lemma bind_normal {A B} (m : Js' A) (k : A -> Js' B) (s s' : State) (a : A) :
  m s = (Normal a, s') -> bind m k s = k a s'.
Proof. unfold bind. now intros ->. Qed.

Lemma bind_throw {A B} (m : Js' A) (k : A -> Js' B) (s s' : State) (e : exn E) :
  m s = (Throw e, s') -> bind m k s = (Throw e, s').
Proof. unfold bind. now intros ->. Qed.

(** The first line of [send] never throws; it touches the store only,
    and only to add the wrapping array. *)
Lemma payload_of_run (events : value) (s : State) :
  exists p s1,
    payload_of events s = (Normal p, s1) /\
    this s1 = this s /\ global_fetch s1 = global_fetch s /\
    world s1 = world s /\ calls s1 = calls s /\
    ((is_array (store s) events = true /\ p = events /\ store s1 = store s) \/
     (is_array (store s) events = false /\ p = VRef (length (store s)) /\
      store s1 = store s ++ [OArr [events]])).
Proof.
  unfold payload_of, bind, Array_isArray, ret, array_literal.
  destruct (is_array (store s) events) eqn:Ha; eexists; eexists;
    (split; [reflexivity|]); simpl; repeat split; auto.
Qed.

Lemma wrapped_denotes (h : heap) (events : value) (d : data) :
  denotes h events d ->
  denotes (h ++ [OArr [events]]) (VRef (length h)) (DArr [d]).
Proof.
  intros Hd. apply den_arr with (items := [events]).
  - rewrite nth_error_app2, Nat.sub_diag; [reflexivity | lia].
  - constructor; [|constructor]. now apply denotes_grow.
Qed.

(** The payload denotes the wire shape of what the caller passed. *)
Lemma payload_denotes (events : value) (s s1 : State) (p : value) (d : data) :
  denotes (store s) events d ->
  payload_of events s = (Normal p, s1) ->
  denotes (store s1) p (wire d).
Proof.
  intros Hd Hrun.
  destruct (payload_of_run events s) as (p' & s1' & Hrun' & _ & _ & _ & _ & Hcase).
  rewrite Hrun in Hrun'. injection Hrun' as <- <-.
  unfold wire. rewrite <- (denotes_is_array _ _ _ Hd).
  destruct Hcase as [(-> & -> & ->) | (-> & -> & ->)].
  - exact Hd.
  - now apply wrapped_denotes.
Qed.

Lemma JSON_stringify_run (v : value) (s : State) :
  JSON_stringify v s =
    (match stringify (store s) v with
     | SerStr t => Normal (Some t)
     | SerUndefined => Normal None
     | SerThrow n m => Throw (JsError n m)
     | Exhausted => Throw (JsError "RangeError" "Maximum call stack size exceeded")
     end, s).
Proof. unfold JSON_stringify. now destruct (stringify (store s) v). Qed.

(** What is left of [send] once the body text is known. *)
Lemma send_serialized (events : value) (s : State) (d : data) (b : string) :
  denotes (store s) events d ->
  json (wire d) = SerStr b ->
  exists s1,
    this s1 = this s /\ global_fetch s1 = global_fetch s /\
    world s1 = world s /\ calls s1 = calls s /\
    (store s1 = store s \/ store s1 = store s ++ [OArr [events]]) /\
    send events s =
      (response <- await_fetch (fetchFn (this s)) (url (this s))
                     (request_init (token (this s)) (Some b)) ;;
       if negb (ok response) then
         errorBody <- await_text response ;;
         throw (DeliveryError (failure_message response errorBody))
       else ret response) s1.
Proof.
  intros Hd Hj.
  destruct (payload_of_run events s) as (p & s1 & Hrun & Ht & Hg & Hw & Hc & Hcase).
  exists s1. repeat (split; [assumption|]). split.
  - destruct Hcase as [(_ & _ & ->) | (_ & _ & ->)]; auto.
  - unfold send. erewrite bind_normal by exact Hrun.
    erewrite bind_normal by (unfold get_this; rewrite Ht; reflexivity).
    erewrite bind_normal; [reflexivity|].
    assert (Hp : denotes (store s1) p (wire d))
      by (eapply payload_denotes; eassumption).
    rewrite JSON_stringify_run, (stringify_denotes _ _ _ Hp), Hj.
    reflexivity.
Qed.

Lemma await_fetch_run (f : Fetch World E R) (input : option string)
    (init : RequestInit) (s : State) :
  await_fetch f input init s =
    (fst (f input init (world s)),
     {| this := this s; store := store s; global_fetch := global_fetch s;
        world := snd (f input init (world s));
        calls := calls s ++ [CallFetch input init] |}).
Proof. unfold await_fetch. now destruct (f input init (world s)). Qed.

Lemma await_text_run (r : R) (s : State) :
  await_text r s =
    (fst (text r (world s)),
     {| this := this s; store := store s; global_fetch := global_fetch s;
        world := snd (text r (world s));
        calls := calls s ++ [CallText r] |}).
Proof. unfold await_text. now destruct (text r (world s)). Qed.

(** Every way a [send] can go once the payload has serialized, by what
    the transport answered. *)
Lemma send_delivered (events : value) (s : State) (d : data) (b : string)
    (c : completion E R) (w1 : World) :
  denotes (store s) events d ->
  json (wire d) = SerStr b ->
  fetchFn (this s) (url (this s)) (request_init (token (this s)) (Some b)) (world s)
    = (c, w1) ->
  let req := CallFetch (url (this s)) (request_init (token (this s)) (Some b)) in
  let res := send events s in
  match c with
  | Throw e =>
      fst res = Throw e /\ world (snd res) = w1 /\
      calls (snd res) = calls s ++ [req]
  | Normal r =>
      if ok r
      then fst res = Normal r /\ world (snd res) = w1 /\
           calls (snd res) = calls s ++ [req]
      else fst res =
             match fst (text r w1) with
             | Normal t => Throw (DeliveryError (failure_message r t))
             | Throw e => Throw e
             end /\
           world (snd res) = snd (text r w1) /\
           calls (snd res) = calls s ++ [req; CallText r]
  end.
Proof.
  intros Hd Hj Hf req res.
  destruct (send_serialized events s d b Hd Hj) as (s1 & Ht & Hg & Hw & Hc & Hs & Hsend).
  subst res. rewrite Hsend. clear Hsend. unfold bind.
  rewrite await_fetch_run, Hw, Hf, Hc. simpl.
  destruct c as [r | e]; [|auto].
  destruct (ok r); simpl; [auto|].
  rewrite await_text_run. simpl.
  destruct (text r w1) as [[t | e] w2]; simpl;
    rewrite <- app_assoc; auto.
Qed.

(** What [send] does to the state whatever it is given: the receiver
    and the global are left alone, the store gains at most the wrapping
    array, and the log gains at most one request, to the stored [url]
    with the [init] of the source, followed at most by one body read. *)
Lemma send_frame (events : value) (s : State) :
  let res := send events s in
  this (snd res) = this s /\
  global_fetch (snd res) = global_fetch s /\
  store (snd res) =
    (if is_array (store s) events then store s else store s ++ [OArr [events]]) /\
  (calls (snd res) = calls s \/
   exists serialized tail,
     calls (snd res) =
       calls s ++ CallFetch (url (this s)) (request_init (token (this s)) serialized)
                  :: tail /\
     (tail = [] \/ exists r, tail = [CallText r])).
Proof.
  intros res. subst res.
  destruct (payload_of_run events s) as (p & s1 & Hrun & Ht & Hg & Hw & Hc & Hcase).
  assert (Hs : store s1 =
               if is_array (store s) events then store s
               else store s ++ [OArr [events]])
    by (destruct Hcase as [(-> & _ & ->) | (-> & _ & ->)]; auto).
  unfold send. erewrite bind_normal by exact Hrun.
  erewrite bind_normal by (unfold get_this; rewrite Ht; reflexivity).
  unfold bind. rewrite JSON_stringify_run.
  destruct (stringify (store s1) p) as [t | | n m | ]; simpl;
    try (rewrite Ht, Hg, Hc; now auto).
  all: rewrite await_fetch_run; simpl.
  all: destruct (fst (fetchFn (this s) (url (this s)) _ (world s1))) as [r | e];
    simpl; rewrite ?Ht, ?Hg, ?Hc.
  all: try (destruct (ok r); simpl;
            [ | rewrite await_text_run; simpl;
                destruct (fst (text r _)); simpl ]).
  all: repeat split; auto; right; eexists; eexists;
    (split; [ try rewrite <- app_assoc; reflexivity | eauto ]).
Qed.

Lemma constructor_run (options : NexusClientOptions World E R) (s : State) :
  constructor options s =
    (if negb (truthy (opt_url options)) || negb (truthy (opt_token options))
     then Throw ConfigurationError
     else Normal tt,
     {| this := {| url := opt_url options;
                   token := opt_token options;
                   fetchFn := match opt_fetch options with
                              | Some f => f
                              | None => global_fetch s
                              end |};
        store := store s; global_fetch := global_fetch s;
        world := world s; calls := calls s |}).
Proof.
  unfold constructor, or_else, set_url, set_token, set_fetchFn, set_this,
    get_this, get_global_fetch, bind, throw, ret.
  destruct (opt_fetch options); simpl;
    now destruct (negb (truthy (opt_url options)) || negb (truthy (opt_token options))).
Qed.

Lemma truthy_some (u : string) : u <> ""%string -> truthy (Some u) = true.
Proof.
  intros Hu. simpl. destruct (String.eqb_spec u ""); [contradiction | reflexivity].
Qed.

(** The log only grows under [send]. *)
Lemma send_log_grows (events : value) (s : State) :
  calls (snd (send events s)) = calls s ++ new_calls events s.
Proof.
  unfold new_calls.
  destruct (send_frame events s) as (_ & _ & _ & [-> | (ser & tail & -> & _)]).
  - now rewrite skipn_all, app_nil_r.
  - now rewrite skipn_app, skipn_all, Nat.sub_diag.
Qed.

Lemma new_calls_eq (events : value) (s : State) (l : list (call R)) :
  calls (snd (send events s)) = calls s ++ l -> new_calls events s = l.
Proof.
  intros H. unfold new_calls. rewrite H, skipn_app, skipn_all, Nat.sub_diag.
  reflexivity.
Qed.

Lemma new_calls_nil (events : value) (s : State) :
  calls (snd (send events s)) = calls s -> new_calls events s = [].
Proof. intros H. apply new_calls_eq. now rewrite app_nil_r. Qed.

(** A payload that serializes goes out in exactly one request. *)
Lemma send_requests (events : value) (s : State) (d : data) (b : string) :
  denotes (store s) events d ->
  json (wire d) = SerStr b ->
  requests (new_calls events s) =
    [CallFetch (url (this s)) (request_init (token (this s)) (Some b))].
Proof.
  intros Hd Hj.
  destruct (fetchFn (this s) (url (this s)) (request_init (token (this s)) (Some b))
              (world s)) as [c w1] eqn:Hf.
  pose proof (send_delivered events s d b c w1 Hd Hj Hf) as H. simpl in H.
  destruct c as [r | e]; [destruct (ok r)|];
    destruct H as (_ & _ & Hc); rewrite (new_calls_eq _ _ _ Hc); reflexivity.
Qed.

(** An exception of the serializer is the outcome of [send], and nothing
    has been sent. *)
Lemma send_serializer_throws (events p : value) (s s1 s2 : State) (e : exn E) :
  payload_of events s = (Normal p, s1) ->
  JSON_stringify p s1 = (Throw e, s2) ->
  send events s = (Throw e, s2) /\ calls s2 = calls s.
Proof.
  intros Hrun Hser. split.
  - unfold send. erewrite bind_normal by exact Hrun.
    erewrite bind_normal by reflexivity.
    erewrite bind_throw by exact Hser. reflexivity.
  - destruct (payload_of_run events s) as (p' & s1' & Hrun' & _ & _ & _ & Hc & _).
    rewrite Hrun in Hrun'. injection Hrun' as <- <-.
    rewrite JSON_stringify_run in Hser. injection Hser as _ <-. exact Hc.
Qed.


Lemma elements_texts (es : list data) (ts : list string) :
  Forall2 (fun e t => json e = SerStr t) es ts ->
  elements (map json es) = inr ts.
Proof.
  induction 1 as [|e t es ts He _ IH]; simpl; [reflexivity|].
  now rewrite He, IH.
Qed.

(** The text of a batch is the texts of its events, in their order and
    as many times as they occur, between brackets. *)
Lemma json_batch_text (es : list data) (ts : list string) :
  Forall2 (fun e t => json e = SerStr t) es ts ->
  json (DArr es) = SerStr ("[" ++ String.concat "," ts ++ "]")%string.
Proof.
  intros H. simpl. unfold ser_array. now rewrite (elements_texts _ _ H).
Qed.

End Running.

(** ** The contract of the client *)

Section Contract.

Context {World E R : Type} {RL : Response World E R}.

Local Abbreviation State := (state World E R).

(** C1.  [send] issues exactly one request, and its body is the JSON
    text of the batch-shaped payload: for a single event [d] (anything
    that is not an array) the text of the one-element array [[d]]; for a
    sequence [es] the text of [es] as it is, which is the texts of its
    events in their order, repeated ones included, separated by commas
    between brackets.  The request is written out: a POST to the [url]
    of the client with its two headers and that body.  The client has
    the [url] and the [token] its constructor asks for; the events are
    JSON-serializable (the payload has a JSON text) and their numbers are
    safe integers. *)
Theorem send_one_request_batch_body (s : State) (events : value) (d : data)
    (u t : string) :
  url (this s) = Some u -> token (this s) = Some t ->
  denotes (store s) events d ->
  safe_numbers d = true ->
  let request (b : string) : call R :=
    CallFetch (Some u)
      {| method := "POST";
         headers := [("Content-Type", "application/json");
                     ("Authorization", "Bearer " ++ t)]%string;
         body := Some b |} in
  (forall b, is_batch d = false -> json (DArr [d]) = SerStr b ->
     requests (new_calls events s) = [request b]) /\
  (forall es b, d = DArr es -> json (DArr es) = SerStr b ->
     requests (new_calls events s) = [request b]) /\
  (forall es ts, d = DArr es ->
     Forall2 (fun e text => json e = SerStr text) es ts ->
     requests (new_calls events s) =
       [request ("[" ++ String.concat "," ts ++ "]")%string]).
Proof.
  intros Hu Ht Hd _ request. unfold request. repeat split.
  - intros b Hb Hj. rewrite (send_requests events s d b Hd), Hu, Ht; [reflexivity|].
    unfold wire. now rewrite Hb.
  - intros es b -> Hj.
    rewrite (send_requests events s (DArr es) b Hd Hj), Hu, Ht. reflexivity.
  - intros es ts -> Hall.
    rewrite (send_requests events s (DArr es) _ Hd (json_batch_text _ _ Hall)), Hu, Ht.
    reflexivity.
Qed.

(** C2.  Run on the fresh object, the constructor succeeds when [url]
    and [token] are both non-empty strings, storing them with the
    transport ([options.fetch], or the global [fetch] when there is
    none); it throws the configuration error when either is the empty
    string or missing; and either way it calls nothing: the log of calls,
    the world behind the transport and the store are as they were. *)
Theorem constructor_validates (options : NexusClientOptions World E R) (s : State) :
  (forall u t, opt_url options = Some u -> opt_token options = Some t ->
     u <> ""%string -> t <> ""%string ->
     fst (constructor options s) = Normal tt /\
     this (snd (constructor options s)) =
       {| url := Some u; token := Some t;
          fetchFn := match opt_fetch options with
                     | Some f => f
                     | None => global_fetch s
                     end |}) /\
  (opt_url options = None \/ opt_url options = Some ""%string \/
   opt_token options = None \/ opt_token options = Some ""%string ->
     fst (constructor options s) =
       Throw (JsError "Error" "NexusClient requires both `url` and `token`.")) /\
  calls (snd (constructor options s)) = calls s /\
  world (snd (constructor options s)) = world s /\
  store (snd (constructor options s)) = store s.
Proof.
  rewrite constructor_run. simpl. repeat apply conj; try reflexivity.
  - intros u t Hu Ht Hune Htne. rewrite Hu, Ht.
    rewrite (truthy_some _ Hune), (truthy_some _ Htne). split; reflexivity.
  - intros [-> | [-> | [-> | ->]]]; simpl; rewrite ?orb_true_r; reflexivity.
Qed.

(** C3.  When the transport answers with a response whose [ok] is
    false, [send] reads the body as text (one request, then one read),
    and fails with the error whose message is
    "Failed to send event(s): <status> <statusText> - <body>"; for 404,
    "Not Found" and "missing" that is
    "Failed to send event(s): 404 Not Found - missing".  When reading the
    body fails, [send] fails with that failure. *)
Theorem send_not_ok (s : State) (events : value) (d : data) (b : string)
    (r : R) (w1 : World) :
  denotes (store s) events d ->
  json (wire d) = SerStr b ->
  fetchFn (this s) (url (this s)) (request_init (token (this s)) (Some b)) (world s)
    = (Normal r, w1) ->
  ok r = false ->
  new_calls events s =
    [CallFetch (url (this s)) (request_init (token (this s)) (Some b)); CallText r] /\
  (forall t w2, text r w1 = (Normal t, w2) ->
     fst (send events s) =
       Throw (JsError "Error"
                ("Failed to send event(s): " ++ number_to_string (status r) ++ " "
                   ++ statusText r ++ " - " ++ t)%string)) /\
  (forall w2, status r = 404%Z -> statusText r = "Not Found"%string ->
     text r w1 = (Normal "missing"%string, w2) ->
     fst (send events s) =
       Throw (JsError "Error" "Failed to send event(s): 404 Not Found - missing")) /\
  (forall e w2, text r w1 = (Throw e, w2) -> fst (send events s) = Throw e).
Proof.
  intros Hd Hj Hf Hok.
  pose proof (send_delivered events s d b _ w1 Hd Hj Hf) as H. simpl in H.
  rewrite Hok in H. destruct H as (Hres & _ & Hc).
  split; [now apply new_calls_eq|]. repeat split.
  - intros t w2 Ht. rewrite Hres, Ht. reflexivity.
  - intros w2 Hst Htx Ht. rewrite Hres, Ht. simpl.
    unfold DeliveryError, failure_message. rewrite Hst, Htx. reflexivity.
  - intros e w2 Ht. rewrite Hres, Ht. reflexivity.
Qed.

(** C4.  Every request that [send] issues is a POST to the stored
    endpoint carrying the two headers Content-Type: application/json and
    Authorization: Bearer <token>, in a headers object with nothing else.
    A client configured with "https://api.test/events" and "abc" that is
    sent [{type: "x"}] issues one request: to that URL, with those
    headers and the body [[{"type":"x"}]]. *)
Theorem send_request_shape (s : State) (events : value) (u t : string) :
  url (this s) = Some u ->
  token (this s) = Some t ->
  (forall c, In c (requests (new_calls events s)) ->
     exists serialized,
       c = CallFetch (Some u)
             {| method := "POST";
                headers := [("Content-Type", "application/json");
                            ("Authorization", "Bearer " ++ t)]%string;
                body := serialized |}) /\
  (u = "https://api.test/events"%string -> t = "abc"%string ->
   denotes (store s) events (DObj [("type"%string, DStr "x")]) ->
   requests (new_calls events s) =
     [CallFetch (Some "https://api.test/events"%string)
        {| method := "POST";
           headers := [("Content-Type", "application/json");
                       ("Authorization", "Bearer abc")]%string;
           body := Some ("[{" ++ dquote ++ "type" ++ dquote ++ ":"
                           ++ dquote ++ "x" ++ dquote ++ "}]")%string |}]).
Proof.
  intros Hu Ht. split.
  - intros c Hin.
    destruct (send_frame events s) as (_ & _ & _ & [Hc | (ser & tail & Hc & Htail)]).
    + rewrite (new_calls_nil _ _ Hc) in Hin. contradiction.
    + rewrite (new_calls_eq _ _ _ Hc), Hu, Ht in Hin.
      exists ser. destruct Htail as [-> | [r ->]]; simpl in Hin;
        destruct Hin as [<- | []]; reflexivity.
  - intros -> -> Hd.
    rewrite (send_requests events s _ _ Hd eq_refl), Hu, Ht. reflexivity.
Qed.

(** C5.  When the transport answers with a response whose [ok] is true,
    [send] resolves to that very response; the request is the only call
    made, so the body of the response is not read, and nothing happens
    behind the transport after it has answered. *)
Theorem send_ok (s : State) (events : value) (d : data) (b : string)
    (r : R) (w1 : World) :
  denotes (store s) events d ->
  json (wire d) = SerStr b ->
  fetchFn (this s) (url (this s)) (request_init (token (this s)) (Some b)) (world s)
    = (Normal r, w1) ->
  ok r = true ->
  fst (send events s) = Normal r /\
  new_calls events s =
    [CallFetch (url (this s)) (request_init (token (this s)) (Some b))] /\
  (forall r', ~ In (CallText r') (new_calls events s)) /\
  world (snd (send events s)) = w1.
Proof.
  intros Hd Hj Hf Hok.
  pose proof (send_delivered events s d b _ w1 Hd Hj Hf) as H. simpl in H.
  rewrite Hok in H. destruct H as (Hres & Hw & Hc).
  apply new_calls_eq in Hc. repeat split; try assumption.
  intros r'. rewrite Hc. intros [Hin | []]. discriminate.
Qed.

(** C6.  A failure of the transport is the failure of [send], the very
    same exception, after the one request and no other call (no second
    attempt); an exception thrown by [JSON.stringify] on the payload is
    the failure of [send] as well, and then nothing has been sent. *)
Theorem send_propagates (s : State) (events : value) :
  (forall d b e w1,
     denotes (store s) events d ->
     json (wire d) = SerStr b ->
     fetchFn (this s) (url (this s)) (request_init (token (this s)) (Some b))
       (world s) = (Throw e, w1) ->
     fst (send events s) = Throw e /\
     new_calls events s =
       [CallFetch (url (this s)) (request_init (token (this s)) (Some b))]) /\
  (forall p s1 e s2,
     payload_of events s = (Normal p, s1) ->
     JSON_stringify p s1 = (Throw e, s2) ->
     fst (send events s) = Throw e /\ new_calls events s = []).
Proof.
  split.
  - intros d b e w1 Hd Hj Hf.
    pose proof (send_delivered events s d b _ w1 Hd Hj Hf) as H. simpl in H.
    destruct H as (Hres & _ & Hc). split; [assumption | now apply new_calls_eq].
  - intros p s1 e s2 Hrun Hser.
    destruct (send_serializer_throws _ _ _ _ _ _ Hrun Hser) as [Hsend Hc].
    split; [now rewrite Hsend|].
    apply new_calls_nil. now rewrite Hsend.
Qed.


(** C8.  [send] leaves the rest alone.  No object that was in the store
    is changed, so the events passed in still denote the data they
    denoted.  The store gains at most the wrapping array, and no object
    that was there refers to it: once the call is over nothing leads to
    the array, hence nothing new leads to the events.  The receiver is as
    before the call, with the same endpoint, token and transport (fields
    that hold no event), and so is the global [fetch]. *)
Theorem send_frame_effect (s : State) (events : value) :
  this (snd (send events s)) = this s /\
  global_fetch (snd (send events s)) = global_fetch s /\
  (forall l o, nth_error (store s) l = Some o ->
     nth_error (store (snd (send events s))) l = Some o) /\
  (forall v d, denotes (store s) v d -> denotes (store (snd (send events s))) v d) /\
  (store (snd (send events s)) = store s \/
   store (snd (send events s)) = store s ++ [OArr [events]]) /\
  (closed (store s) ->
   forall l o, l < length (store s) ->
     nth_error (store (snd (send events s))) l = Some o ->
     ~ In (length (store s)) (refs_of o)).
Proof.
  destruct (send_frame events s) as (Ht & Hg & Hs & _).
  assert (Hold : forall l o, nth_error (store s) l = Some o ->
                   nth_error (store (snd (send events s))) l = Some o).
  { intros l o Hl. rewrite Hs. destruct (is_array (store s) events); [assumption|].
    rewrite nth_error_app1; [assumption | apply nth_error_Some; congruence]. }
  repeat apply conj; try assumption.
  - intros v d Hd. rewrite Hs.
    destruct (is_array (store s) events); [assumption | now apply denotes_grow].
  - rewrite Hs. destruct (is_array (store s) events); auto.
  - intros Hcl l o Hl Hnth Hin.
    destruct (nth_error (store s) l) as [o' |] eqn:Ho';
      [| apply nth_error_None in Ho'; lia].
    rewrite (Hold _ _ Ho') in Hnth. injection Hnth as <-.
    specialize (Hcl _ _ Ho' _ Hin). lia.
Qed.

(** C9.  [send] does not look into the event.  Whatever the properties
    of the object passed (its numbers safe integers), the request goes
    out with the text of the one-element array holding it as its body:
    also for an object without a [type], sent as [[{}]], and for one
    whose [type] is the empty string.  The request is written out, for a
    client with the [url] and the [token] its constructor asks for. *)
Theorem send_no_validation (s : State) (events : value)
    (props : list (string * data)) (u t : string) :
  url (this s) = Some u -> token (this s) = Some t ->
  denotes (store s) events (DObj props) ->
  let request (b : string) : call R :=
    CallFetch (Some u)
      {| method := "POST";
         headers := [("Content-Type", "application/json");
                     ("Authorization", "Bearer " ++ t)]%string;
         body := Some b |} in
  (forall b, safe_numbers (DObj props) = true ->
     json (DArr [DObj props]) = SerStr b ->
     requests (new_calls events s) = [request b]) /\
  (props = [] -> requests (new_calls events s) = [request "[{}]"%string]) /\
  (props = [("type"%string, DStr "")] ->
     requests (new_calls events s) =
       [request ("[{" ++ dquote ++ "type" ++ dquote ++ ":"
                   ++ dquote ++ dquote ++ "}]")%string]).
Proof.
  intros Hu Ht Hd request. unfold request. repeat split.
  - intros b _ Hj.
    rewrite (send_requests events s (DObj props) b Hd Hj), Hu, Ht. reflexivity.
  - intros ->.
    rewrite (send_requests events s (DObj []) _ Hd eq_refl), Hu, Ht. reflexivity.
  - intros ->.
    rewrite (send_requests events s (DObj [("type"%string, DStr "")]) _ Hd eq_refl),
      Hu, Ht.
    reflexivity.
Qed.

(** C10.  Passed [null] or [undefined], [send] wraps the value like any
    other that is not an array and issues its one request, written out
    here, with the body [[null]]; the outcome is then the transport's:
    when it answers that request with an [ok] response, [send] resolves
    to it.  The client has the [url] and the [token] its constructor asks
    for. *)
Theorem send_null (s : State) (events : value) (u t : string) :
  url (this s) = Some u -> token (this s) = Some t ->
  events = VNull \/ events = VUndefined ->
  let init :=
    {| method := "POST";
       headers := [("Content-Type", "application/json");
                   ("Authorization", "Bearer " ++ t)]%string;
       body := Some "[null]"%string |} in
  requests (new_calls events s) = [CallFetch (Some u) init] /\
  store (snd (send events s)) = store s ++ [OArr [events]] /\
  (forall r w1,
     fetchFn (this s) (Some u) init (world s) = (Normal r, w1) ->
     ok r = true -> fst (send events s) = Normal r).
Proof.
  intros Hu Ht Hev init. unfold init.
  assert (Hd : exists d, denotes (store s) events d /\ is_batch d = false /\
                         json (wire d) = SerStr "[null]"%string).
  { destruct Hev as [-> | ->];
      [exists DNull | exists DUndefined]; repeat split; constructor. }
  destruct Hd as (d & Hd & Hb & Hj). repeat split.
  - rewrite (send_requests events s d _ Hd Hj), Hu, Ht. reflexivity.
  - destruct (send_frame events s) as (_ & _ & Hs & _).
    now rewrite Hs, (denotes_is_array _ _ _ Hd), Hb.
  - intros r w1 Hf Hok.
    assert (Hf' : fetchFn (this s) (url (this s))
                    (request_init (token (this s)) (Some "[null]"%string)) (world s)
                  = (Normal r, w1))
      by (rewrite Hu, Ht; exact Hf).
    pose proof (send_delivered events s d _ _ w1 Hd Hj Hf') as H. simpl in H.
    rewrite Hok in H. now destruct H.
Qed.

End Contract.

(** ** The contract on the mocked host of the test suite *)

Lemma send_one_request_batch_body_witness :
  let s := client_state (test_client (mockResolvedValue response_200)) store_batch in
  let request (b : string) : call MockResponse :=
    CallFetch (Some "https://api.test/events"%string)
      {| method := "POST";
         headers := [("Content-Type", "application/json");
                     ("Authorization", "Bearer abc")]%string;
         body := Some b |} in
  requests (new_calls (VRef 0) s) = [request ("[" ++ text_x ++ "]")%string] /\
  requests (new_calls (VRef 2) s) =
    [request ("[" ++ String.concat "," [text_x; text_y; text_x] ++ "]")%string].
Proof.
  intros s request.
  assert (Hx : denotes (store s) (VRef 0) (DObj [("type"%string, DStr "x")]))
    by (repeat econstructor).
  assert (Hb : denotes (store s) (VRef 2)
                 (DArr [DObj [("type"%string, DStr "x")];
                        DObj [("type"%string, DStr "y")];
                        DObj [("type"%string, DStr "x")]]))
    by (repeat econstructor).
  split.
  - exact (proj1 (send_one_request_batch_body s (VRef 0) _
                    "https://api.test/events" "abc" eq_refl eq_refl Hx eq_refl)
             _ eq_refl eq_refl).
  - refine (proj2 (proj2 (send_one_request_batch_body s (VRef 2) _
                            "https://api.test/events" "abc" eq_refl eq_refl Hb eq_refl))
              _ [text_x; text_y; text_x] eq_refl _).
    repeat constructor.
Defined.

Lemma constructor_validates_witness :
  let s := fresh_state [] (mockResolvedValue response_200) in
  (fst (constructor options_valid s) = Normal tt /\
   this (snd (constructor options_valid s)) =
     {| url := Some "https://api.example.com"%string;
        token := Some "valid-token"%string;
        fetchFn := mockResolvedValue response_200 |}) /\
  fst (constructor options_no_url s) =
    Throw (JsError "Error" "NexusClient requires both `url` and `token`.") /\
  fst (constructor options_no_token s) =
    Throw (JsError "Error" "NexusClient requires both `url` and `token`.") /\
  calls (snd (constructor options_no_url s)) = [].
Proof.
  intros s. repeat apply conj.
  - apply (proj1 (constructor_validates options_valid s)
             "https://api.example.com"%string "valid-token"%string eq_refl eq_refl);
      discriminate.
  - apply (proj1 (constructor_validates options_valid s)
             "https://api.example.com"%string "valid-token"%string eq_refl eq_refl);
      discriminate.
  - apply (proj1 (proj2 (constructor_validates options_no_url s))).
    right. left. reflexivity.
  - apply (proj1 (proj2 (constructor_validates options_no_token s))).
    right. right. left. reflexivity.
  - apply (proj1 (proj2 (proj2 (constructor_validates options_no_url s)))).
Defined.

Lemma send_not_ok_witness :
  fst (send (VRef 0)
         (client_state (test_client (mockResolvedValue response_404)) [event_x])) =
    Throw (JsError "Error" "Failed to send event(s): 404 Not Found - missing") /\
  fst (send (VRef 0)
         (client_state (test_client (mockResolvedValue response_unreadable)) [event_x])) =
    Throw (HostError "body stream already read"%string).
Proof.
  split.
  - refine (proj1 (proj2 (proj2
      (send_not_ok
         (client_state (test_client (mockResolvedValue response_404)) [event_x])
         (VRef 0) (DObj [("type"%string, DStr "x")]) ("[" ++ text_x ++ "]")%string
         response_404 1%nat _ eq_refl eq_refl eq_refl))) 1%nat eq_refl eq_refl eq_refl).
    repeat econstructor.
  - refine (proj2 (proj2 (proj2
      (send_not_ok
         (client_state (test_client (mockResolvedValue response_unreadable)) [event_x])
         (VRef 0) (DObj [("type"%string, DStr "x")]) ("[" ++ text_x ++ "]")%string
         response_unreadable 1%nat _ eq_refl eq_refl eq_refl))) _ 1%nat eq_refl).
    repeat econstructor.
Defined.

Lemma send_request_shape_witness :
  requests
    (new_calls (VRef 0)
       (client_state (test_client (mockResolvedValue response_200)) [event_x])) =
    [CallFetch (Some "https://api.test/events"%string)
       {| method := "POST";
          headers := [("Content-Type", "application/json");
                      ("Authorization", "Bearer abc")]%string;
          body := Some ("[" ++ text_x ++ "]")%string |}].
Proof.
  refine (proj2
    (send_request_shape
       (client_state (test_client (mockResolvedValue response_200)) [event_x])
       (VRef 0) "https://api.test/events"%string "abc"%string eq_refl eq_refl)
    eq_refl eq_refl _).
  repeat econstructor.
Defined.

Lemma send_ok_witness :
  let s := client_state (test_client (mockResolvedValue response_200)) [event_x] in
  fst (send (VRef 0) s) = Normal response_200 /\
  new_calls (VRef 0) s =
    [CallFetch (Some "https://api.test/events"%string)
       (request_init (Some "abc"%string) (Some ("[" ++ text_x ++ "]")%string))].
Proof.
  intros s.
  assert (Hx : denotes (store s) (VRef 0) (DObj [("type"%string, DStr "x")]))
    by (repeat econstructor).
  pose proof (send_ok s (VRef 0) _ ("[" ++ text_x ++ "]")%string response_200 1%nat
                Hx eq_refl eq_refl eq_refl) as H.
  split; [exact (proj1 H) | exact (proj1 (proj2 H))].
Defined.

Lemma send_propagates_witness :
  fst (send (VRef 0)
         (client_state
            (test_client (mockRejectedValue (HostError "Network failure"%string)))
            [event_x])) =
    Throw (HostError "Network failure"%string) /\
  (fst (send (VRef 0)
          (client_state (test_client (mockResolvedValue response_200))
             [event_circular])) =
     Throw (JsError "TypeError" "Converting circular structure to JSON") /\
   new_calls (VRef 0)
     (client_state (test_client (mockResolvedValue response_200)) [event_circular])
     = []).
Proof.
  split.
  - refine (proj1 (proj1
      (send_propagates
         (client_state
            (test_client (mockRejectedValue (HostError "Network failure"%string)))
            [event_x]) (VRef 0))
      (DObj [("type"%string, DStr "x")]) ("[" ++ text_x ++ "]")%string
      (HostError "Network failure"%string) 1%nat _ eq_refl eq_refl)).
    repeat econstructor.
  - eapply (proj2
      (send_propagates
         (client_state (test_client (mockResolvedValue response_200))
            [event_circular]) (VRef 0))); reflexivity.
Defined.


Lemma send_frame_effect_witness :
  let s := client_state (test_client (mockResolvedValue response_200)) store_batch in
  this (snd (send (VRef 0) s)) = this s /\
  nth_error (store (snd (send (VRef 0) s))) 0 = Some event_x /\
  ~ In 3 (refs_of (OArr [VRef 0; VRef 1; VRef 0])).
Proof.
  intros s.
  pose proof (send_frame_effect s (VRef 0)) as H.
  assert (Hcl : closed (store s)).
  { intros l o Hl l' Hin.
    destruct l as [|[|[|[|l]]]]; simpl in Hl; try discriminate;
      injection Hl as <-; simpl in Hin; simpl; lia. }
  repeat apply conj.
  - exact (proj1 H).
  - exact (proj1 (proj2 (proj2 H)) 0%nat event_x eq_refl).
  - apply (proj2 (proj2 (proj2 (proj2 (proj2 H)))) Hcl 2%nat); [simpl; lia | reflexivity].
Defined.

Lemma send_no_validation_witness :
  requests
    (new_calls (VRef 0)
       (client_state (test_client (mockResolvedValue response_200)) [OObj []])) =
    [CallFetch (Some "https://api.test/events"%string)
       {| method := "POST";
          headers := [("Content-Type", "application/json");
                      ("Authorization", "Bearer abc")]%string;
          body := Some "[{}]"%string |}].
Proof.
  refine (proj1 (proj2
    (send_no_validation
       (client_state (test_client (mockResolvedValue response_200)) [OObj []])
       (VRef 0) [] "https://api.test/events" "abc" eq_refl eq_refl _)) eq_refl).
  repeat econstructor.
Defined.

Lemma send_null_witness :
  let s := client_state (test_client (mockResolvedValue response_200)) [] in
  requests (new_calls VNull s) =
    [CallFetch (Some "https://api.test/events"%string)
       {| method := "POST";
          headers := [("Content-Type", "application/json");
                      ("Authorization", "Bearer abc")]%string;
          body := Some "[null]"%string |}] /\
  fst (send VNull s) = Normal response_200.
Proof.
  intros s.
  pose proof (send_null s VNull "https://api.test/events" "abc" eq_refl eq_refl
                (or_introl eq_refl)) as H.
  split; [exact (proj1 H) | exact (proj2 (proj2 H) response_200 1%nat eq_refl eq_refl)].
Defined.

(* ================================================================== *)
(** * Further properties of the client *)

(** Runs [send] along each of its paths. *)
Ltac send_paths events s :=
  let p := fresh "p" in
  let s1 := fresh "s1" in
  let Hrun := fresh "Hrun" in
  let Ht := fresh "Ht" in
  let Hg := fresh "Hg" in
  let Hw := fresh "Hw" in
  let Hc := fresh "Hc" in
  let Hcase := fresh "Hcase" in
  destruct (payload_of_run events s)
    as (p & s1 & Hrun & Ht & Hg & Hw & Hc & Hcase);
  unfold send; erewrite bind_normal by exact Hrun;
  erewrite bind_normal by (unfold get_this; rewrite Ht; reflexivity);
  unfold bind; rewrite JSON_stringify_run;
  destruct (stringify (store s1) p); simpl;
  try (rewrite await_fetch_run; simpl; rewrite Hw;
       let r := fresh "r" in
       let Hf := fresh "Hf" in
       destruct (fetchFn (this s) (url (this s)) _ (world s)) as [[r | ?] ?] eqn:Hf;
       simpl;
       try (let Hok := fresh "Hok" in
            destruct (ok r) eqn:Hok; simpl;
            [ | rewrite await_text_run; simpl;
                let Htx := fresh "Htx" in
                destruct (text r _) as [[? | ?] ?] eqn:Htx; simpl ])).

Section Client_More.

Context {World E R : Type} {RL : Response World E R}.

Local Abbreviation State := (state World E R).

(** X1.  [send] never resolves with a response that is not [ok]: when
    it resolves, the response is [ok], the request was the only call and
    the body has not been read. *)
Theorem send_resolves_only_ok (events : value) (s : State) (r : R) :
  fst (send events s) = Normal r ->
  ok r = true /\
  exists serialized,
    new_calls events s =
      [CallFetch (url (this s)) (request_init (token (this s)) serialized)].
Proof.
  intros H.
  assert (G : ok r = true /\
              exists serialized,
                calls (snd (send events s)) =
                  calls s ++ [CallFetch (url (this s))
                                (request_init (token (this s)) serialized)]).
  { revert H. send_paths events s; intros H; try discriminate;
      injection H as <-; (split; [assumption|]); rewrite Hc; eauto. }
  destruct G as [Hok [ser Hcalls]]. split; [assumption|].
  exists ser. now apply new_calls_eq.
Qed.

(** X2.  Whatever it is passed and whatever the transport does, one
    [send] calls the transport at most once and reads at most one body,
    that of the response to its request, after the request. *)
Theorem send_at_most_one_request (events : value) (s : State) :
  new_calls events s = [] \/
  exists serialized,
    new_calls events s =
      [CallFetch (url (this s)) (request_init (token (this s)) serialized)] \/
    exists r,
      fst (fetchFn (this s) (url (this s))
             (request_init (token (this s)) serialized) (world s)) = Normal r /\
      ok r = false /\
      new_calls events s =
        [CallFetch (url (this s)) (request_init (token (this s)) serialized);
         CallText r].
Proof.
  assert (G : calls (snd (send events s)) = calls s \/
              exists serialized,
                calls (snd (send events s)) =
                  calls s ++ [CallFetch (url (this s))
                                (request_init (token (this s)) serialized)] \/
                exists r,
                  fst (fetchFn (this s) (url (this s))
                         (request_init (token (this s)) serialized) (world s))
                    = Normal r /\
                  ok r = false /\
                  calls (snd (send events s)) =
                    calls s ++ [CallFetch (url (this s))
                                  (request_init (token (this s)) serialized);
                                CallText r]).
  { send_paths events s; rewrite ?Hc; auto; right; eexists;
      first [ left; reflexivity
            | right; eexists; rewrite Hf, <- app_assoc; simpl; auto ]. }
  destruct G as [G | [ser [G | [r [Hf [Hok G]]]]]].
  - left. now apply new_calls_nil.
  - right. exists ser. left. now apply new_calls_eq.
  - right. exists ser. right. exists r. repeat split; auto. now apply new_calls_eq.
Qed.

(** X3.  Two calls of [send] on a client are two requests, in the order
    of the calls and each with the body of its own payload: nothing is
    held back, merged or dropped between calls, and the second goes to
    the same endpoint with the same token as the first.  The requests are
    written out, for a client with a [url] and a [token] and payloads
    whose numbers are safe integers. *)
Theorem send_twice (s : State) (ev1 ev2 : value) (d1 d2 : data)
    (b1 b2 u t : string) :
  url (this s) = Some u -> token (this s) = Some t ->
  denotes (store s) ev1 d1 -> safe_numbers d1 = true -> json (wire d1) = SerStr b1 ->
  denotes (store s) ev2 d2 -> safe_numbers d2 = true -> json (wire d2) = SerStr b2 ->
  let request (b : string) : call R :=
    CallFetch (Some u)
      {| method := "POST";
         headers := [("Content-Type", "application/json");
                     ("Authorization", "Bearer " ++ t)]%string;
         body := Some b |} in
  requests (calls (snd (send ev2 (snd (send ev1 s))))) =
    requests (calls s) ++ [request b1; request b2].
Proof.
  intros Hu Htok Hd1 _ Hj1 Hd2 _ Hj2 request. unfold request.
  destruct (send_frame ev1 s) as (Ht & _ & Hs & _).
  assert (Hd2' : denotes (store (snd (send ev1 s))) ev2 d2).
  { rewrite Hs. destruct (is_array (store s) ev1); [assumption|].
    now apply denotes_grow. }
  rewrite (send_log_grows ev2), (send_log_grows ev1).
  unfold requests at 1. rewrite !filter_app. fold (requests (calls s)).
  fold (requests (new_calls ev1 s)).
  fold (requests (new_calls ev2 (snd (send ev1 s)))).
  rewrite (send_requests ev1 s d1 b1 Hd1 Hj1).
  rewrite (send_requests ev2 _ d2 b2 Hd2' Hj2), Ht, Hu, Htok.
  now rewrite <- app_assoc.
Qed.

(** X4.  A client keeps what its constructor stored.  After a
    construction that succeeded, a [send] in any later state of the same
    object goes to the [url] of the options with their [token], through
    [options.fetch] or, without one, through the global [fetch] as it
    was when the client was constructed, whatever the global is by then;
    what that transport settles with is the outcome of [send]. *)
Theorem constructed_client_sends (options : NexusClientOptions World E R)
    (s0 s : State) (u t : string) (events : value) (d : data) (b : string) :
  opt_url options = Some u -> opt_token options = Some t ->
  u <> ""%string -> t <> ""%string ->
  this s = this (snd (constructor options s0)) ->
  denotes (store s) events d -> json (wire d) = SerStr b ->
  let f := match opt_fetch options with
           | Some f => f
           | None => global_fetch s0
           end in
  let init := {| method := "POST";
                 headers := [("Content-Type", "application/json");
                             ("Authorization", "Bearer " ++ t)]%string;
                 body := Some b |} in
  requests (new_calls events s) = [CallFetch (Some u) init] /\
  (forall e w1, f (Some u) init (world s) = (Throw e, w1) ->
     fst (send events s) = Throw e) /\
  (forall r w1, f (Some u) init (world s) = (Normal r, w1) -> ok r = true ->
     fst (send events s) = Normal r).
Proof.
  intros Hu Ht Hune Htne Hthis Hd Hj f init.
  rewrite constructor_run in Hthis. simpl in Hthis.
  rewrite Hu, Ht in Hthis.
  assert (Hinit : request_init (token (this s)) (Some b) = init)
    by now rewrite Hthis.
  assert (Hurl : url (this s) = Some u) by now rewrite Hthis.
  assert (Hfn : fetchFn (this s) = f) by now rewrite Hthis.
  repeat split.
  - rewrite (send_requests events s d b Hd Hj), Hinit, Hurl. reflexivity.
  - intros e w1 Hf.
    rewrite <- Hfn, <- Hurl, <- Hinit in Hf.
    pose proof (send_delivered events s d b _ w1 Hd Hj Hf) as H. simpl in H.
    now destruct H.
  - intros r w1 Hf Hok.
    rewrite <- Hfn, <- Hurl, <- Hinit in Hf.
    pose proof (send_delivered events s d b _ w1 Hd Hj Hf) as H. simpl in H.
    rewrite Hok in H. now destruct H.
Qed.

End Client_More.

(* ================================================================== *)
(** * Properties of the callers *)

Section Retry_Transport.

Context {World E R : Type} {RL : Response World E R} {HO : Host World E}.

Variable fetch : Fetch World E R.

Lemma attempts_upto_nonpos (n : Z) : (n <= 0)%Z -> attempts_upto n = [].
Proof.
  intros Hn. unfold attempts_upto.
  replace (Z.to_nat n) with 0 by lia. reflexivity.
Qed.

Lemma attempts_upto_pos (n : Z) :
  (1 <= n)%Z -> exists rest, attempts_upto n = 1%Z :: rest.
Proof.
  intros Hn. unfold attempts_upto.
  destruct (Z.to_nat n) as [|k] eqn:Hk; [lia|].
  simpl. eauto.
Qed.

Lemma attempts_upto_length (n : Z) : length (attempts_upto n) = Z.to_nat n.
Proof. unfold attempts_upto. now rewrite length_map, length_seq. Qed.

Lemma retry_attempts_below_500 (maxRetries retryDelay : Z) (attempts : list Z) :
  forall lastError url init w r w',
    retry_attempts fetch maxRetries retryDelay attempts lastError url init w
      = (Normal r, w') ->
    (status r < 500)%Z.
Proof.
  induction attempts as [|attempt rest IH]; intros lastError url init w r w' H;
    simpl in H; [discriminate|].
  destruct (fetch url init w) as [[response | error] w1].
  - destruct (Z.geb (status response) 500) eqn:Hst.
    + now apply IH in H.
    + injection H as <- _. rewrite Z.geb_leb in Hst.
      apply Z.leb_gt in Hst. exact Hst.
  - now apply IH in H.
Qed.

Lemma retry_attempts_count (count : World -> nat) (maxRetries retryDelay : Z)
    (attempts : list Z) :
  (forall url init w, count (snd (fetch url init w)) = S (count w)) ->
  (forall ms w, count (setTimeout ms w) = count w) ->
  forall lastError url init w,
    count (snd (retry_attempts fetch maxRetries retryDelay attempts lastError
                  url init w))
      <= count w + length attempts.
Proof.
  intros Hfetch Hwait.
  induction attempts as [|attempt rest IH]; intros lastError url init w; simpl;
    [lia|].
  pose proof (Hfetch url init w) as Hc.
  destruct (fetch url init w) as [[response | error] w1]; simpl in Hc.
  - destruct (Z.geb (status response) 500); simpl; [|lia].
    etransitivity; [apply IH|].
    destruct (Z.ltb attempt maxRetries); rewrite ?Hwait; lia.
  - etransitivity; [apply IH|].
    destruct (Z.ltb attempt maxRetries); rewrite ?Hwait; lia.
Qed.

(** X5.  The retrying transport hands back the first answer below 500
    as it is, 4xx included, and leaves the world as that one call left
    it: no retry, no wait. *)
Theorem retry_fetch_first_answer (maxRetries retryDelay : option Z)
    (url : option string) (init : RequestInit) (w w1 : World) (r : R) :
  (1 <= match maxRetries with Some n => n | None => 3 end)%Z ->
  fetch url init w = (Normal r, w1) ->
  (status r < 500)%Z ->
  createRetryFetch fetch maxRetries retryDelay url init w = (Normal r, w1).
Proof.
  intros Hn Hf Hst. unfold createRetryFetch.
  destruct (attempts_upto_pos _ Hn) as [rest ->]. simpl. rewrite Hf.
  replace (Z.geb (status r) 500) with false; [reflexivity|].
  symmetry. rewrite Z.geb_leb. now apply Z.leb_gt.
Qed.

(** X6.  The retrying transport never resolves with a 5xx response:
    whatever it resolves with has a status below 500. *)
Theorem retry_fetch_never_5xx (maxRetries retryDelay : option Z)
    (url : option string) (init : RequestInit) (w w' : World) (r : R) :
  createRetryFetch fetch maxRetries retryDelay url init w = (Normal r, w') ->
  (status r < 500)%Z.
Proof. unfold createRetryFetch. apply retry_attempts_below_500. Qed.

(** X7.  The retrying transport calls [fetch] at most [maxRetries] times
    (3 by default).  [count] is any tally that each call of [fetch] raises
    by one and that waiting leaves alone. *)
Theorem retry_fetch_bounded (count : World -> nat) (maxRetries retryDelay : option Z)
    (url : option string) (init : RequestInit) (w : World) :
  (forall url init w, count (snd (fetch url init w)) = S (count w)) ->
  (forall ms w, count (setTimeout ms w) = count w) ->
  count (snd (createRetryFetch fetch maxRetries retryDelay url init w))
    <= count w + Z.to_nat (match maxRetries with Some n => n | None => 3%Z end).
Proof.
  intros Hfetch Hwait. unfold createRetryFetch.
  rewrite <- attempts_upto_length. now apply retry_attempts_count.
Qed.

(** X8.  With [maxRetries] zero or negative the retrying transport does
    not call [fetch] at all: it fails at once with the error
    "All retries failed" and leaves the world as it was. *)
Theorem retry_fetch_no_attempts (maxRetries : Z) (retryDelay : option Z)
    (url : option string) (init : RequestInit) (w : World) :
  (maxRetries <= 0)%Z ->
  createRetryFetch fetch (Some maxRetries) retryDelay url init w =
    (Throw (JsError "Error" "All retries failed"), w).
Proof.
  intros Hn. unfold createRetryFetch. now rewrite attempts_upto_nonpos.
Qed.

Lemma retry_attempts_same_failure (maxRetries retryDelay : Z)
    (url : option string) (init : RequestInit) (c : completion E R) (err : exn E)
    (attempts : list Z) :
  (forall w, fst (fetch url init w) = c) ->
  match c with
  | Normal r =>
      (500 <= status r)%Z /\
      err = JsError "Error" ("Server error: " ++ number_to_string (status r))%string
  | Throw e => err = e
  end ->
  forall lastError w,
    fst (retry_attempts fetch maxRetries retryDelay attempts lastError url init w) =
      Throw (match attempts with
             | [] => match lastError with
                     | Some error => error
                     | None => JsError "Error" "All retries failed"
                     end
             | _ => err
             end).
Proof.
  intros Hall Hc.
  induction attempts as [|attempt rest IH]; intros lastError w; [reflexivity|].
  simpl. pose proof (Hall w) as Hw.
  destruct (fetch url init w) as [c' w1]. simpl in Hw. subst c'.
  destruct c as [r | e].
  - destruct Hc as [Hst ->].
    replace (Z.geb (status r) 500) with true
      by (symmetry; rewrite Z.geb_leb; now apply Z.leb_le).
    rewrite IH. now destruct rest.
  - subst err. rewrite IH. now destruct rest.
Qed.

Lemma retry_attempts_count_exact (count : World -> nat) (maxRetries retryDelay : Z)
    (url : option string) (init : RequestInit) (c : completion E R)
    (attempts : list Z) :
  (forall url init w, count (snd (fetch url init w)) = S (count w)) ->
  (forall ms w, count (setTimeout ms w) = count w) ->
  (forall w, fst (fetch url init w) = c) ->
  match c with Normal r => (500 <= status r)%Z | Throw _ => True end ->
  forall lastError w,
    count (snd (retry_attempts fetch maxRetries retryDelay attempts lastError
                  url init w))
      = count w + length attempts.
Proof.
  intros Hfetch Hwait Hall Hc.
  induction attempts as [|attempt rest IH]; intros lastError w; simpl; [lia|].
  pose proof (Hall w) as Hw. pose proof (Hfetch url init w) as Hn.
  destruct (fetch url init w) as [c' w1]. simpl in Hw, Hn. subst c'.
  destruct c as [r | e].
  - replace (Z.geb (status r) 500) with true
      by (symmetry; rewrite Z.geb_leb; now apply Z.leb_le).
    rewrite IH. destruct (Z.ltb attempt maxRetries); rewrite ?Hwait; lia.
  - rewrite IH. destruct (Z.ltb attempt maxRetries); rewrite ?Hwait; lia.
Qed.

(** X9.  When every call of [fetch] fails the same way, the retrying
    transport gives up after exactly [maxRetries] calls (3 by default)
    and fails with the last failure: the rejection of [fetch] itself, or,
    for a response of 500 and above, the error "Server error: <status>"
    in place of the response. *)
Theorem retry_fetch_gives_up (count : World -> nat) (maxRetries retryDelay : option Z)
    (url : option string) (init : RequestInit) (c : completion E R) (w : World) :
  (1 <= match maxRetries with Some n => n | None => 3 end)%Z ->
  (forall url init w, count (snd (fetch url init w)) = S (count w)) ->
  (forall ms w, count (setTimeout ms w) = count w) ->
  (forall w, fst (fetch url init w) = c) ->
  match c with Normal r => (500 <= status r)%Z | Throw _ => True end ->
  fst (createRetryFetch fetch maxRetries retryDelay url init w) =
    Throw (match c with
           | Normal r =>
               JsError "Error" ("Server error: " ++ number_to_string (status r))%string
           | Throw e => e
           end) /\
  count (snd (createRetryFetch fetch maxRetries retryDelay url init w)) =
    count w + Z.to_nat (match maxRetries with Some n => n | None => 3%Z end).
Proof.
  intros Hn Hfetch Hwait Hall Hc. unfold createRetryFetch. split.
  - rewrite (retry_attempts_same_failure _ _ url init c
               (match c with
                | Normal r =>
                    JsError "Error"
                      ("Server error: " ++ number_to_string (status r))%string
                | Throw e => e
                end) _ Hall).
    + destruct (attempts_upto_pos _ Hn) as [rest ->]. reflexivity.
    + destruct c; auto.
  - rewrite <- attempts_upto_length.
    now apply retry_attempts_count_exact with (c := c).
Qed.

End Retry_Transport.

Section Retry_Transport_Client.

Context {World E R : Type} {RL : Response World E R} {HO : Host World E}.

(** X10.  Behind the retrying transport the client never sees a response
    of 500 and above.  When the server keeps answering with one, [send]
    fails with the transport's "Server error: <status>", not with its own
    "Failed to send event(s): ...": the client has logged its one
    request and has read no body. *)
Theorem send_over_retry_fetch (fetch : Fetch World E R)
    (maxRetries retryDelay : option Z) (s : state World E R)
    (events : value) (d : data) (b : string) (r0 : R) :
  fetchFn (this s) = createRetryFetch fetch maxRetries retryDelay ->
  (1 <= match maxRetries with Some n => n | None => 3 end)%Z ->
  denotes (store s) events d ->
  json (wire d) = SerStr b ->
  (forall w, fst (fetch (url (this s)) (request_init (token (this s)) (Some b)) w)
             = Normal r0) ->
  (500 <= status r0)%Z ->
  fst (send events s) =
    Throw (JsError "Error" ("Server error: " ++ number_to_string (status r0))%string) /\
  new_calls events s =
    [CallFetch (url (this s)) (request_init (token (this s)) (Some b))].
Proof.
  intros Hfn Hn Hd Hj Hall Hst.
  destruct (fetchFn (this s) (url (this s)) (request_init (token (this s)) (Some b))
              (world s)) as [c w1] eqn:Hf.
  assert (Hc : c = Throw (JsError "Error"
                            ("Server error: " ++ number_to_string (status r0))%string)).
  { rewrite Hfn in Hf. unfold createRetryFetch in Hf.
    pose proof (retry_attempts_same_failure fetch
                  (match maxRetries with Some n => n | None => 3%Z end)
                  (match retryDelay with Some n => n | None => 1000%Z end)
                  _ _ (Normal r0) _
                  (attempts_upto (match maxRetries with Some n => n | None => 3%Z end))
                  Hall (conj Hst eq_refl) None (world s)) as H.
    rewrite Hf in H. simpl in H.
    destruct (attempts_upto_pos _ Hn) as [rest Hrest]. rewrite Hrest in H.
    exact H. }
  subst c.
  pose proof (send_delivered events s d b _ w1 Hd Hj Hf) as H. simpl in H.
  destruct H as (Hres & _ & Hcalls). split; [assumption | now apply new_calls_eq].
Qed.

End Retry_Transport_Client.

Section Validation.

Context {World E R : Type} {RL : Response World E R} {HO : Host World E}.

Local Abbreviation State := (state World E R).
Local Abbreviation Js' := (@Js World E R).

#[local] Arguments own_property : simpl never.
#[local] Arguments includes : simpl never.

Lemma observer_ret {A} (a : A) : observer (ret a : Js' A).
Proof. split; reflexivity. Qed.

Lemma observer_throw {A} (e : exn E) : observer (throw e : Js' A).
Proof. split; reflexivity. Qed.

Lemma observer_bind {A B} (m : Js' A) (k : A -> Js' B) :
  observer m -> (forall a, observer (k a)) -> observer (bind m k).
Proof.
  intros [Hm1 Hm2] Hk. split.
  - intros s. unfold bind. specialize (Hm1 s).
    destruct (m s) as [[a | e] s1]; simpl in Hm1; subst s1; [|reflexivity].
    apply (Hk a).
  - intros s s' Hs. unfold bind.
    pose proof (Hm1 s) as H1. pose proof (Hm1 s') as H1'.
    specialize (Hm2 s s' Hs).
    destruct (m s) as [[a | e] s1], (m s') as [[a' | e'] s1'];
      simpl in *; subst; try discriminate.
    + injection Hm2 as <-. now apply (Hk a).
    + now injection Hm2 as <-.
Qed.

Lemma observer_try_catch {A} (m : Js' A) (handler : exn E -> Js' A) :
  observer m -> (forall e, observer (handler e)) -> observer (try_catch m handler).
Proof.
  intros [Hm1 Hm2] Hh. split.
  - intros s. unfold try_catch. specialize (Hm1 s).
    destruct (m s) as [[a | e] s1]; simpl in Hm1; subst s1; [reflexivity|].
    apply (Hh e).
  - intros s s' Hs. unfold try_catch.
    pose proof (Hm1 s) as H1. pose proof (Hm1 s') as H1'.
    specialize (Hm2 s s' Hs).
    destruct (m s) as [[a | e] s1], (m s') as [[a' | e'] s1'];
      simpl in *; subst; try discriminate.
    + assumption.
    + injection Hm2 as <-. now apply (Hh e).
Qed.

Lemma observer_get (v : value) (key : string) : observer (get v key : Js' value).
Proof.
  split.
  - intros s. unfold get. now destruct v.
  - intros s s' Hs. unfold get. rewrite Hs. now destruct v.
Qed.

Lemma observer_has (key : string) (v : value) : observer (has key v : Js' bool).
Proof.
  split.
  - intros s. unfold has. now destruct v.
  - intros s s' Hs. unfold has. rewrite Hs. now destruct v.
Qed.

Lemma observer_invalid_date (v : value) : observer (invalid_date v : Js' bool).
Proof.
  split.
  - intros s. unfold invalid_date. now destruct v.
  - intros s s' Hs. unfold invalid_date. rewrite Hs. now destruct v.
Qed.

Lemma observer_JSON_stringify (v : value) :
  observer (JSON_stringify v : Js' (option string)).
Proof.
  split.
  - intros s. now rewrite JSON_stringify_run.
  - intros s s' Hs. now rewrite !JSON_stringify_run, Hs.
Qed.

Lemma observer_Array_isArray (v : value) : observer (Array_isArray v : Js' bool).
Proof.
  split.
  - reflexivity.
  - intros s s' Hs. unfold Array_isArray. now rewrite Hs.
Qed.

Ltac observe :=
  repeat first
    [ apply observer_ret | apply observer_throw
    | apply observer_get | apply observer_has | apply observer_invalid_date
    | apply observer_JSON_stringify | apply observer_Array_isArray
    | apply observer_bind; [|intros ?]
    | apply observer_try_catch; [|intros ?]
    | match goal with
      | |- observer (if ?b then _ else _) => destruct b
      | |- observer (match ?x with _ => _ end) => destruct x
      end ].

Lemma observer_validate (event : value) : observer (validate event : Js' unit).
Proof. unfold validate. observe. Qed.

Lemma observer_validate_each (items : list value) :
  forall index, observer (validate_each items index : Js' unit).
Proof.
  induction items as [|event rest IH]; intros index; simpl.
  - apply observer_ret.
  - apply observer_bind; [|intros _; apply IH].
    apply observer_try_catch; [apply observer_validate | intros e; apply observer_throw].
Qed.

Lemma observer_validateBatch (events : value) :
  observer (validateBatch events : Js' unit).
Proof.
  unfold validateBatch.
  apply observer_bind; [apply observer_Array_isArray | intros is_arr].
  apply observer_bind; [observe | intros _].
  apply observer_bind.
  - split; [reflexivity | intros s s' Hs; simpl; now rewrite Hs].
  - intros items.
    apply observer_bind; [observe | intros _].
    apply observer_bind; [observe | intros _].
    apply observer_validate_each.
Qed.

(** X11.  Validation only looks: [validate] and [validateBatch] leave
    the state as it is (nothing is sent, nothing is allocated), and what
    they answer depends on the store alone. *)
Theorem validation_only_looks (v : value) (s s' : State) :
  snd (validate v s) = s /\
  snd (validateBatch v s) = s /\
  (store s = store s' ->
   fst (validate v s) = fst (validate v s') /\
   fst (validateBatch v s) = fst (validateBatch v s')).
Proof.
  destruct (observer_validate v) as [V1 V2].
  destruct (observer_validateBatch v) as [B1 B2].
  repeat split; auto.
Qed.

Lemma validate_get_type (event : value) (s : State) :
  event <> VUndefined -> event <> VNull ->
  get event "type" s =
    (Normal (match own_property (store s) event "type" with
             | Some x => x
             | None => VUndefined
             end), s).
Proof. intros H1 H2. unfold get. destruct event; congruence. Qed.

(** X12.  [validate] asks for what [send] does not.  An event whose
    [type] is missing or falsy, the empty string included, is refused
    with "Event type is required"; one whose [type] is truthy but not a
    string, with "Event type must be a non-empty string".  [send] sends
    both. *)
Theorem validate_requires_type (event : value) (s : State) :
  event <> VUndefined -> event <> VNull ->
  (match own_property (store s) event "type" with
   | Some x => truthy_value x = false
   | None => True
   end ->
   validate event s = (Throw (ValidationError "Event type is required"), s)) /\
  (forall x,
     own_property (store s) event "type" = Some x ->
     truthy_value x = true -> (forall t, x <> VStr t) ->
     validate event s =
       (Throw (ValidationError "Event type must be a non-empty string"), s)).
Proof.
  intros H1 H2. split.
  - intros H. unfold validate, bind. rewrite (validate_get_type _ _ H1 H2).
    destruct (own_property (store s) event "type") as [x|]; simpl.
    + now rewrite H.
    + reflexivity.
  - intros x Hx Ht Hns. unfold validate, bind.
    rewrite (validate_get_type _ _ H1 H2), Hx. simpl. rewrite Ht. simpl.
    destruct x; try reflexivity. now destruct (Hns s0).
Qed.

(** Runs [validate] with what is known of its tests. *)
Ltac run_validate :=
  unfold validate, bind, get, has, invalid_date, JSON_stringify, throw, ret;
  repeat (simpl;
          repeat match goal with
                 | H : _ = _ |- _ => rewrite H
                 end).

(** X13.  What [validate] lets through: an object with a [type] that is
    a non-empty string without a space, whose [timestamp], when it has a
    truthy one, is a date, and that [JSON.stringify] serializes. *)
Theorem validate_accepted (event : value) (s : State) :
  fst (validate event s) = Normal tt ->
  (exists t,
     own_property (store s) event "type" = Some (VStr t) /\
     t <> ""%string /\ includes t " " = false) /\
  (forall ts,
     own_property (store s) event "timestamp" = Some ts ->
     truthy_value ts = true -> Date_isNaN (store s) ts = false) /\
  (exists b, stringify (store s) event = SerStr b).
Proof.
  destruct event as [ | | b | n | n | str | l]; try discriminate.
  destruct (own_property (store s) (VRef l) "type") as [x|] eqn:Hx;
    [|run_validate; discriminate].
  destruct (truthy_value x) eqn:Htr; [|run_validate; discriminate].
  destruct x as [ | | b | n | n | t | l']; try (run_validate; discriminate).
  destruct (String.length t) eqn:Hlen; [run_validate; discriminate|].
  destruct (includes t " ") eqn:Hsp; [run_validate; discriminate|].
  assert (Ht : exists t0, Some (VStr t) = Some (VStr t0) /\
                          t0 <> ""%string /\ includes t0 " " = false).
  { exists t. repeat split; auto. intros ->. discriminate. }
  destruct (stringify (store s) (VRef l)) as [b' | | n' m' | ] eqn:Hser.
  2-4: destruct (own_property (store s) (VRef l) "timestamp") as [ts|] eqn:Hts;
    [ destruct (truthy_value ts) eqn:Htt;
      [ destruct (Date_isNaN (store s) ts) eqn:Hdate; destruct ts | ] | ];
    run_validate; discriminate.
  intros H. split; [exact Ht | split; [|eauto]].
  intros ts Hts Htt. revert H.
  destruct (Date_isNaN (store s) ts) eqn:Hdate; [|reflexivity].
  destruct ts; run_validate; discriminate.
Qed.

(** X14.  And [validate] lets every such event through: it returns,
    leaving the state as it is. *)
Theorem validate_accepts (event : value) (s : State) (t b : string) :
  own_property (store s) event "type" = Some (VStr t) ->
  t <> ""%string -> includes t " " = false ->
  (forall ts,
     own_property (store s) event "timestamp" = Some ts ->
     truthy_value ts = true ->
     (forall n, ts <> VBigInt n) /\ Date_isNaN (store s) ts = false) ->
  stringify (store s) event = SerStr b ->
  validate event s = (Normal tt, s).
Proof.
  intros Hty Hne Hsp Hts Hser.
  destruct event as [ | | ? | ? | ? | ? | l]; try discriminate.
  destruct t as [|c t']; [congruence|].
  destruct (own_property (store s) (VRef l) "timestamp") as [ts|] eqn:Hts';
    [|run_validate; reflexivity].
  destruct (truthy_value ts) eqn:Htt; [|run_validate; reflexivity].
  destruct (Hts ts eq_refl Htt) as [Hbig Hdate].
  destruct ts; try (now destruct (Hbig n)); run_validate; reflexivity.
Qed.

Lemma validateBatch_array (l : loc) (items : list value) (s : State) :
  nth_error (store s) l = Some (OArr items) ->
  validateBatch (VRef l) s =
    (if Z.eqb (Z.of_nat (length items)) 0
     then throw (ValidationError "Events array cannot be empty")
     else if Z.gtb (Z.of_nat (length items)) 1000
          then throw (ValidationError
                        ("Batch too large: "
                           ++ number_to_string (Z.of_nat (length items))
                           ++ " events (max 1000)")%string)
          else validate_each items 0) s.
Proof.
  intros Hl. unfold validateBatch, bind, Array_isArray, throw, ret. simpl.
  rewrite Hl. simpl. rewrite Hl.
  destruct (Z.eqb (Z.of_nat (length items)) 0); [reflexivity|].
  destruct (Z.gtb (Z.of_nat (length items)) 1000); [reflexivity|].
  reflexivity.
Qed.

(** X15.  [validateBatch] has bounds that [send] has not: it refuses
    what is not an array, the empty array (which [send] sends as [[]])
    and an array of more than 1000 events, each with its own message. *)
Theorem validateBatch_bounds (events : value) (s : State) :
  (is_array (store s) events = false ->
   validateBatch events s =
     (Throw (ValidationError "Events must be an array"), s)) /\
  (forall l items,
     events = VRef l -> nth_error (store s) l = Some (OArr items) ->
     (items = [] ->
      validateBatch events s =
        (Throw (ValidationError "Events array cannot be empty"), s)) /\
     (1000 < length items ->
      validateBatch events s =
        (Throw (ValidationError
                  ("Batch too large: " ++ number_to_string (Z.of_nat (length items))
                     ++ " events (max 1000)")%string), s))).
Proof.
  split.
  - intros Ha. unfold validateBatch, bind, Array_isArray. simpl. now rewrite Ha.
  - intros l items -> Hl. rewrite (validateBatch_array _ _ _ Hl). split.
    + intros ->. reflexivity.
    + intros Hlen.
      replace (Z.eqb (Z.of_nat (length items)) 0) with false
        by (symmetry; apply Z.eqb_neq; lia).
      replace (Z.gtb (Z.of_nat (length items)) 1000) with true
        by (symmetry; rewrite Z.gtb_ltb; apply Z.ltb_lt; lia).
      reflexivity.
Qed.

Lemma validate_each_first_invalid (pre post : list value) (ev : value)
    (err : exn E) (s : State) :
  (forall e, In e pre -> fst (validate e s) = Normal tt) ->
  fst (validate ev s) = Throw err ->
  forall index,
    validate_each (pre ++ ev :: post) index s =
      (Throw (ValidationError
                ("Invalid event at index "
                   ++ number_to_string (index + Z.of_nat (length pre)) ++ ": "
                   ++ template (message_of err))%string), s).
Proof.
  intros Hpre Hev.
  induction pre as [|e pre IH]; intros index.
  - cbn [app validate_each]. unfold bind, try_catch.
    pose proof (proj1 (observer_validate ev) s) as Hs.
    destruct (validate ev s) as [c s1]. cbn [fst snd] in *. subst.
    cbn [length Z.of_nat]. now rewrite Z.add_0_r.
  - cbn [app validate_each]. unfold bind at 1. unfold try_catch.
    pose proof (proj1 (observer_validate e) s) as Hs.
    pose proof (Hpre e (or_introl eq_refl)) as He.
    destruct (validate e s) as [c s1]. cbn [fst snd] in *. subst.
    rewrite IH by (intros; apply Hpre; now right).
    replace (index + 1 + Z.of_nat (length pre))%Z
      with (index + Z.of_nat (length (e :: pre)))%Z
      by (cbn [length]; lia).
    reflexivity.
Qed.

Lemma validate_each_all_valid (items : list value) (s : State) :
  (forall e, In e items -> fst (validate e s) = Normal tt) ->
  forall index, validate_each items index s = (Normal tt, s).
Proof.
  intros Hall.
  induction items as [|e items IH]; intros index; simpl; [reflexivity|].
  unfold bind at 1. unfold try_catch.
  pose proof (proj1 (observer_validate e) s) as Hs.
  pose proof (Hall e (or_introl eq_refl)) as He.
  destruct (validate e s) as [c s1]. simpl in *. subst.
  apply IH. auto.
Qed.

(** X16.  On an array of 1 to 1000 events, [validateBatch] returns when
    [validate] lets every event through, and otherwise fails at the
    first event that [validate] refuses, with
    "Invalid event at index <i>: <message>", [i] counted from 0 and the
    message that of the failure of [validate] on that event. *)
Theorem validateBatch_first_invalid (l : loc) (items : list value) (s : State) :
  nth_error (store s) l = Some (OArr items) ->
  1 <= length items <= 1000 ->
  ((forall e, In e items -> fst (validate e s) = Normal tt) ->
   validateBatch (VRef l) s = (Normal tt, s)) /\
  (forall pre ev post err,
     items = pre ++ ev :: post ->
     (forall e, In e pre -> fst (validate e s) = Normal tt) ->
     fst (validate ev s) = Throw err ->
     validateBatch (VRef l) s =
       (Throw (ValidationError
                 ("Invalid event at index "
                    ++ number_to_string (Z.of_nat (length pre)) ++ ": "
                    ++ template (message_of err))%string), s)).
Proof.
  intros Hl Hlen. rewrite (validateBatch_array _ _ _ Hl).
  replace (Z.eqb (Z.of_nat (length items)) 0) with false
    by (symmetry; apply Z.eqb_neq; lia).
  replace (Z.gtb (Z.of_nat (length items)) 1000) with false
    by (symmetry; rewrite Z.gtb_ltb; apply Z.ltb_ge; lia).
  split.
  - intros Hall. now apply validate_each_all_valid.
  - intros pre ev post err -> Hpre Hev.
    now rewrite (validate_each_first_invalid pre post ev err s Hpre Hev).
Qed.

End Validation.

Section Retry_Send.

Context {World E R : Type} {RL : Response World E R} {HO : Host World E}.

Local Abbreviation State := (state World E R).
Local Abbreviation Js' := (@Js World E R).

Lemma observer_validate_input (event : value) :
  observer (validate_input event : Js' unit).
Proof.
  apply observer_bind; [apply observer_Array_isArray | intros is_arr].
  destruct is_arr; [apply observer_validateBatch | apply observer_validate].
Qed.

Lemma send_normal_ok (events : value) (s : State) (r : R) :
  fst (send events s) = Normal r -> ok r = true.
Proof.
  send_paths events s; intros H; try discriminate; now injection H as <-.
Qed.

Lemma send_requests_bound (events : value) (s : State) :
  length (requests (new_calls events s)) <= 1.
Proof.
  destruct (send_frame events s) as (_ & _ & _ & [Hc | (ser & tail & Hc & Htail)]).
  - rewrite (new_calls_nil _ _ Hc). simpl. lia.
  - rewrite (new_calls_eq _ _ _ Hc).
    destruct Htail as [-> | [r ->]]; simpl; lia.
Qed.

(** One pass through the [try] block: the validation, then [send] and
    nothing more. *)
Lemma attempt_send_run (event : value) (s : State) :
  attempt_send event s =
    match fst (validate_input event s) with
    | Normal _ => send event s
    | Throw e => (Throw e, s)
    end.
Proof.
  unfold attempt_send.
  pose proof (proj1 (observer_validate_input event) s) as Hs.
  unfold bind at 1.
  destruct (validate_input event s) as [[[] | e] s1]; simpl in *; subst s1;
    [|reflexivity].
  unfold bind at 1.
  pose proof (send_normal_ok event s) as Hok.
  destruct (send event s) as [[r | e] s2]; [|reflexivity].
  simpl in Hok. now rewrite (Hok r eq_refl).
Qed.

Lemma backoff_run (attempt maxRetries : Z) (maxDelay delay : QArith_base.Q)
    (s : State) :
  exists d s',
    backoff attempt maxRetries maxDelay delay s = (Normal d, s') /\
    this s' = this s /\ store s' = store s /\ calls s' = calls s.
Proof.
  unfold backoff. destruct (Z.ltb attempt maxRetries).
  - unfold bind, sleep, random, ret. simpl. eexists. eexists.
    split; [reflexivity|]. simpl. auto.
  - exists delay, s. unfold ret. auto.
Qed.

(** Whether the [catch] block throws the error on. *)
Local Abbreviation gives_up shouldRetry error :=
  (is_ValidationError error
   || match message_of error with
      | Some m => includes m "HTTP 4"
      | None => false
      end
   || negb (shouldRetry error)).

Lemma retry_send_step (event : value) (maxRetries : Z) (maxDelay : QArith_base.Q)
    (shouldRetry : exn E -> bool) (attempt : Z) (rest : list Z)
    (lastError : option (exn E)) (delay : QArith_base.Q) (s : State) :
  retry_send event maxRetries maxDelay shouldRetry (attempt :: rest) lastError delay s =
    match attempt_send event s with
    | (Normal response, s1) => (Normal response, s1)
    | (Throw error, s1) =>
        if gives_up shouldRetry error then (Throw error, s1)
        else
          match backoff attempt maxRetries maxDelay delay s1 with
          | (Normal d, s2) =>
              retry_send event maxRetries maxDelay shouldRetry rest (Some error) d s2
          | (Throw e, s2) => (Throw e, s2)
          end
    end.
Proof.
  simpl. unfold try_catch.
  destruct (attempt_send event s) as [[response | error] s1]; [reflexivity|].
  destruct (is_ValidationError error); [reflexivity|].
  destruct (match message_of error with
            | Some m => includes m "HTTP 4"
            | None => false
            end); [reflexivity|].
  destruct (shouldRetry error); reflexivity.
Qed.

(** X17.  [sendWithRetry] validates before it sends.  An input that the
    validation refuses with a ValidationError is never sent and never
    retried, whatever [shouldRetry] says: the call fails with that very
    error and leaves the state as it was.  (So the empty batch, which
    [send] delivers, is refused here.) *)
Theorem sendWithRetry_validation_refuses (event : value) (options : RetryOptions)
    (s : State) (m : string) :
  (1 <= match maxRetries options with Some n => n | None => 3 end)%Z ->
  fst (validate_input event s) = Throw (ValidationError m) ->
  sendWithRetry event options s = (Throw (ValidationError m), s).
Proof.
  intros Hn Hv. unfold sendWithRetry.
  destruct (attempts_upto_pos _ Hn) as [rest ->].
  rewrite retry_send_step, attempt_send_run, Hv. reflexivity.
Qed.

Lemma sendWithRetry_one_send (event : value) (options : RetryOptions)
    (s : State) :
  (1 <= match maxRetries options with Some n => n | None => 3 end)%Z ->
  fst (validate_input event s) = Normal tt ->
  match fst (send event s) with
  | Normal _ => True
  | Throw error =>
      match message_of error with
      | Some m => includes m "HTTP 4" = true
      | None => False
      end \/
      match shouldRetry options with
      | Some f => f error
      | None => default_shouldRetry error
      end = false
  end ->
  sendWithRetry event options s = send event s.
Proof.
  intros Hn Hv Hstop. unfold sendWithRetry.
  destruct (attempts_upto_pos _ Hn) as [rest ->].
  rewrite retry_send_step, attempt_send_run, Hv.
  destruct (send event s) as [[r | error] s1]; [reflexivity|].
  simpl in Hstop.
  destruct (is_ValidationError error); [reflexivity|]. simpl.
  destruct Hstop as [Hm | Hr].
  - destruct (message_of error) as [msg|]; [|contradiction]. now rewrite Hm.
  - destruct (match message_of error with
              | Some m => includes m "HTTP 4"
              | None => false
              end); [reflexivity|].
    simpl. destruct (shouldRetry options); now rewrite Hr.
Qed.

(** X18.  Once the validation has passed, an attempt is one [send] and
    nothing else ([send] never resolves with a response that is not
    [ok], so the check of the response in [sendWithRetry] never fires).
    When that [send] resolves, or fails with an error that is not to be
    retried (a message containing "HTTP 4", or [shouldRetry] saying no),
    [sendWithRetry] is that single [send]: same outcome, same state. *)
Theorem sendWithRetry_single_attempt (event : value) (options : RetryOptions)
    (s : State) :
  (1 <= match maxRetries options with Some n => n | None => 3 end)%Z ->
  fst (validate_input event s) = Normal tt ->
  match fst (send event s) with
  | Normal _ => True
  | Throw error =>
      match message_of error with
      | Some m => includes m "HTTP 4" = true
      | None => False
      end \/
      match shouldRetry options with
      | Some f => f error
      | None => default_shouldRetry error
      end = false
  end ->
  sendWithRetry event options s = send event s.
Proof. apply sendWithRetry_one_send. Qed.

(** X19.  With [maxRetries] zero or negative (a safe integer)
    [sendWithRetry] validates nothing and sends nothing: it fails at once
    with "Failed after <maxRetries> attempts: undefined". *)
Theorem sendWithRetry_no_attempts (event : value) (options : RetryOptions)
    (s : State) (n : Z) :
  maxRetries options = Some n -> (n <= 0)%Z -> safe_integer n = true ->
  sendWithRetry event options s =
    (Throw (NexusError
              ("Failed after " ++ number_to_string n ++ " attempts: undefined")%string),
     s).
Proof.
  intros Hmax Hn _. unfold sendWithRetry. rewrite Hmax.
  now rewrite attempts_upto_nonpos.
Qed.

Lemma retry_send_requests (event : value) (maxRetries : Z) (maxDelay : QArith_base.Q)
    (shouldRetry : exn E -> bool) (attempts : list Z) :
  forall lastError delay s,
    exists l,
      calls (snd (retry_send event maxRetries maxDelay shouldRetry attempts
                    lastError delay s)) = calls s ++ l /\
      length (requests l) <= length attempts.
Proof.
  induction attempts as [|attempt rest IH]; intros lastError delay s.
  - exists []. simpl. rewrite app_nil_r. auto.
  - rewrite retry_send_step, attempt_send_run.
    assert (Hsend : exists l, calls (snd (send event s)) = calls s ++ l /\
                              length (requests l) <= 1).
    { exists (new_calls event s). split;
        [apply send_log_grows | apply send_requests_bound]. }
    destruct (fst (validate_input event s)) as [[] | e].
    + destruct Hsend as (l1 & Hl1 & Hb1).
      destruct (send event s) as [[r | error] s1]; simpl in Hl1.
      * exists l1. simpl. split; [assumption | lia].
      * destruct (gives_up shouldRetry error).
        -- exists l1. simpl. split; [assumption | lia].
        -- destruct (backoff_run attempt maxRetries maxDelay delay s1)
             as (d & s2 & -> & _ & _ & Hc2).
           destruct (IH (Some error) d s2) as (l2 & Hl2 & Hb2).
           exists (l1 ++ l2). rewrite Hl2, Hc2, Hl1, <- app_assoc.
           split; [reflexivity|].
           unfold requests in *. rewrite filter_app, length_app. simpl. lia.
    + destruct (gives_up shouldRetry e).
      * exists []. simpl. rewrite app_nil_r. split; [reflexivity | lia].
      * destruct (backoff_run attempt maxRetries maxDelay delay s)
          as (d & s2 & -> & _ & _ & Hc2).
        destruct (IH (Some e) d s2) as (l2 & Hl2 & Hb2).
        exists l2. rewrite Hl2, Hc2. split; [reflexivity | simpl; lia].
Qed.

(** X20.  [sendWithRetry] issues at most [maxRetries] requests (3 by
    default), whatever the transport answers and whatever [shouldRetry]
    says. *)
Theorem sendWithRetry_bounded (event : value) (options : RetryOptions) (s : State) :
  exists l,
    calls (snd (sendWithRetry event options s)) = calls s ++ l /\
    length (requests l)
      <= Z.to_nat (match maxRetries options with Some n => n | None => 3%Z end).
Proof.
  unfold sendWithRetry. rewrite <- attempts_upto_length.
  apply retry_send_requests.
Qed.

Lemma send_array_run (event : value) (s : State) (b : string) :
  is_array (store s) event = true ->
  stringify (store s) event = SerStr b ->
  let req := CallFetch (url (this s)) (request_init (token (this s)) (Some b)) in
  this (snd (send event s)) = this s /\
  store (snd (send event s)) = store s /\
  (forall e,
     fst (fetchFn (this s) (url (this s)) (request_init (token (this s)) (Some b))
            (world s)) = Throw e ->
     fst (send event s) = Throw e /\
     calls (snd (send event s)) = calls s ++ [req]).
Proof.
  intros Ha Hser req.
  destruct (send_frame event s) as (Ht & _ & Hs & _). rewrite Ha in Hs.
  repeat split; try assumption.
  - destruct (payload_of_run event s) as (p & s1 & Hrun & Ht1 & Hg & Hw & Hc & Hcase).
    destruct Hcase as [(_ & -> & Hs1) | (Ha' & _)]; [|congruence].
    unfold send. erewrite bind_normal by exact Hrun.
    erewrite bind_normal by (unfold get_this; rewrite Ht1; reflexivity).
    erewrite bind_normal
      by (rewrite JSON_stringify_run, Hs1, Hser; reflexivity).
    unfold bind. rewrite await_fetch_run, Hw.
    destruct (fetchFn (this s) (url (this s)) _ (world s)) as [c w1].
    simpl in H. subst c. reflexivity.
  - destruct (payload_of_run event s) as (p & s1 & Hrun & Ht1 & Hg & Hw & Hc & Hcase).
    destruct Hcase as [(_ & -> & Hs1) | (Ha' & _)]; [|congruence].
    unfold send. erewrite bind_normal by exact Hrun.
    erewrite bind_normal by (unfold get_this; rewrite Ht1; reflexivity).
    erewrite bind_normal
      by (rewrite JSON_stringify_run, Hs1, Hser; reflexivity).
    unfold bind. rewrite await_fetch_run, Hw.
    destruct (fetchFn (this s) (url (this s)) _ (world s)) as [c w1].
    simpl in H. subst c. simpl. now rewrite Hc.
Qed.

Lemma retry_send_exhausted (event : value) (maxRetries : Z)
    (maxDelay : QArith_base.Q) (shouldRetry : exn E -> bool)
    (s : State) (b : string) (e : exn E) (attempts : list Z) :
  is_array (store s) event = true ->
  fst (validate_input event s) = Normal tt ->
  stringify (store s) event = SerStr b ->
  (forall w,
     fst (fetchFn (this s) (url (this s)) (request_init (token (this s)) (Some b)) w)
       = Throw e) ->
  gives_up shouldRetry e = false ->
  forall lastError delay s',
    this s' = this s -> store s' = store s ->
    fst (retry_send event maxRetries maxDelay shouldRetry attempts lastError delay s') =
      Throw (NexusError
               ("Failed after " ++ number_to_string maxRetries ++ " attempts: "
                  ++ template (match attempts with
                               | [] => match lastError with
                                       | Some error => message_of error
                                       | None => None
                                       end
                               | _ => message_of e
                               end))%string) /\
    requests (calls (snd (retry_send event maxRetries maxDelay shouldRetry attempts
                            lastError delay s'))) =
      requests (calls s') ++
      repeat (CallFetch (url (this s)) (request_init (token (this s)) (Some b)))
        (length attempts).
Proof.
  intros Ha Hv Hser Hall Hgo.
  induction attempts as [|attempt rest IH]; intros lastError delay s' Ht Hs.
  - simpl. rewrite app_nil_r. auto.
  - rewrite retry_send_step, attempt_send_run.
    rewrite (proj2 (observer_validate_input event) s' s Hs), Hv.
    assert (Ha' : is_array (store s') event = true) by now rewrite Hs.
    assert (Hser' : stringify (store s') event = SerStr b) by now rewrite Hs.
    destruct (send_array_run event s' b Ha' Hser') as (Ht1 & Hs1 & Hrej).
    specialize (Hrej e). rewrite Ht in Hrej.
    destruct (Hrej (Hall (world s'))) as [Hres Hcalls].
    destruct (send event s') as [c s1]. simpl in *. subst c.
    rewrite Hgo.
    destruct (backoff_run attempt maxRetries maxDelay delay s1)
      as (d & s2 & -> & Ht2 & Hs2 & Hc2).
    destruct (IH (Some e) d s2) as [Hf Hr]; [congruence | congruence |].
    split.
    + rewrite Hf. now destruct rest.
    + rewrite Hr, Hc2, Hcalls. unfold requests. rewrite filter_app. simpl.
      now rewrite <- app_assoc.
Qed.

(** X21.  When every call of the transport rejects with an error that is
    to be retried, [sendWithRetry] on a batch that passes the validation
    makes exactly [maxRetries] requests (3 by default), all alike, and
    then fails with
    "Failed after <maxRetries> attempts: <message of the rejection>". *)
Theorem sendWithRetry_exhausted (event : value) (options : RetryOptions)
    (s : State) (b : string) (e : exn E) :
  let n := match maxRetries options with Some n => n | None => 3%Z end in
  (1 <= n)%Z ->
  is_array (store s) event = true ->
  fst (validate_input event s) = Normal tt ->
  stringify (store s) event = SerStr b ->
  (forall w,
     fst (fetchFn (this s) (url (this s)) (request_init (token (this s)) (Some b)) w)
       = Throw e) ->
  is_ValidationError e = false ->
  match message_of e with Some m => includes m "HTTP 4" | None => false end = false ->
  match shouldRetry options with
  | Some f => f e
  | None => default_shouldRetry e
  end = true ->
  fst (sendWithRetry event options s) =
    Throw (NexusError
             ("Failed after " ++ number_to_string n ++ " attempts: "
                ++ template (message_of e))%string) /\
  requests (calls (snd (sendWithRetry event options s))) =
    requests (calls s) ++
    repeat (CallFetch (url (this s)) (request_init (token (this s)) (Some b)))
      (Z.to_nat n).
Proof.
  intros n Hn Ha Hv Hser Hall Hne H4 Hretry. unfold sendWithRetry. fold n.
  rewrite <- (attempts_upto_length n).
  destruct (attempts_upto_pos _ Hn) as [rest Hrest].
  pose proof (retry_send_exhausted event n
                (match maxDelay options with
                 | Some d => d
                 | None => QArith_base.inject_Z 30000
                 end)
                (match shouldRetry options with
                 | Some f => f
                 | None => default_shouldRetry
                 end) s b e (attempts_upto n) Ha Hv Hser Hall) as H.
  rewrite Hrest in *.
  apply H; auto.
  rewrite Hne, H4. simpl. destruct (shouldRetry options); now rewrite Hretry.
Qed.

(** X22.  With the default [shouldRetry], a response that is not [ok]
    is not retried, 5xx included: the error of [send] reads
    "Failed to send event(s): <status> ...", and unless the status text
    or the body happen to bring in one of the marks that the default
    looks for ("fetch failed", "HTTP 5", "ETIMEDOUT", "ECONNREFUSED"),
    [sendWithRetry] fails with that error after the one request. *)
Theorem sendWithRetry_http_failure (event : value) (options : RetryOptions)
    (s : State) (d : data) (b t : string) (r : R) (w1 w2 : World) :
  (1 <= match maxRetries options with Some n => n | None => 3 end)%Z ->
  shouldRetry options = None ->
  fst (validate_input event s) = Normal tt ->
  denotes (store s) event d -> json (wire d) = SerStr b ->
  fetchFn (this s) (url (this s)) (request_init (token (this s)) (Some b)) (world s)
    = (Normal r, w1) ->
  ok r = false ->
  text r w1 = (Normal t, w2) ->
  let message :=
    ("Failed to send event(s): " ++ number_to_string (status r) ++ " "
       ++ statusText r ++ " - " ++ t)%string in
  includes message "fetch failed" = false ->
  includes message "HTTP 5" = false ->
  includes message "ETIMEDOUT" = false ->
  includes message "ECONNREFUSED" = false ->
  fst (sendWithRetry event options s) = Throw (JsError "Error" message) /\
  calls (snd (sendWithRetry event options s)) =
    calls s ++ [CallFetch (url (this s)) (request_init (token (this s)) (Some b));
                CallText r].
Proof.
  intros Hn Hdef Hv Hd Hj Hf Hok Htx message H1 H2 H3 H4.
  pose proof (send_delivered event s d b _ w1 Hd Hj Hf) as H. simpl in H.
  rewrite Hok, Htx in H. destruct H as (Hres & _ & Hcalls).
  rewrite sendWithRetry_one_send; auto.
  rewrite Hres. right. rewrite Hdef.
  unfold default_shouldRetry, DeliveryError, failure_message. cbn [message_of].
  subst message. now rewrite H1, H2, H3, H4.
Qed.

End Retry_Send.

Section Circuit.

Context {World E R : Type} {RL : Response World E R} {HO : Host World E}.

Local Abbreviation State := (state World E R).
Local Abbreviation Js' := (@Js World E R).

Ltac run_execute :=
  unfold execute, mbind, mtry, lift, get_self, put_self, set_circuit, now,
    mthrow, mret; simpl.

(** X23.  While the circuit is open and no more than [recoveryTimeout]
    ms have passed since the last failure, [execute] does not run the
    operation: it fails with "Circuit breaker is open - service
    unavailable" and changes neither the breaker nor the state. *)
Theorem execute_open_rejects {T} (operation : Js' T) (self : CircuitBreaker)
    (s : State) :
  circuit_state self = Open ->
  (Date_now (world s) - lastFailureTime self <= recoveryTimeout (options self))%Z ->
  execute operation self s =
    (Throw (NexusError "Circuit breaker is open - service unavailable"), self, s).
Proof.
  intros Hopen Hwin. run_execute. rewrite Hopen. simpl.
  replace (Z.gtb (Date_now (world s) - lastFailureTime self)
             (recoveryTimeout (options self))) with false
    by (symmetry; rewrite Z.gtb_ltb; apply Z.ltb_ge; lia).
  reflexivity.
Qed.

(** X24.  A failure of the operation is the failure of [execute], the
    same error, and it is counted: [failures] goes up by one and
    [lastFailureTime] is the time after the operation.  The circuit opens
    when the count has reached [failureThreshold], and otherwise stays as
    it is. *)
Theorem execute_counts_failure {T} (operation : Js' T) (self : CircuitBreaker)
    (s s1 : State) (e : exn E) :
  circuit_state self <> Open ->
  operation s = (Throw e, s1) ->
  execute operation self s =
    (Throw e,
     {| failures := failures self + 1;
        lastFailureTime := Date_now (world s1);
        circuit_state :=
          if Z.geb (failures self + 1) (failureThreshold (options self))
          then Open
          else circuit_state self;
        options := options self |},
     s1).
Proof.
  intros Hst Hop. run_execute.
  destruct (circuit_state self) eqn:Hc; try congruence; simpl;
    rewrite Hop; simpl;
    destruct (Z.geb (failures self + 1) (failureThreshold (options self)));
    simpl; rewrite ?Hc; reflexivity.
Qed.

(** X25.  A success while the circuit is closed leaves the breaker as it
    is: the count of failures is not reset, so failures add up across
    successes and need not be consecutive to open the circuit.  A success
    while it is half-open closes it and resets the count. *)
Theorem execute_success {T} (operation : Js' T) (self : CircuitBreaker)
    (s s1 : State) (a : T) :
  operation s = (Normal a, s1) ->
  (circuit_state self = Closed -> execute operation self s = (Normal a, self, s1)) /\
  (circuit_state self = HalfOpen ->
   execute operation self s =
     (Normal a,
      {| failures := 0; lastFailureTime := lastFailureTime self;
         circuit_state := Closed; options := options self |},
      s1)).
Proof.
  intros Hop. split; intros Hc; run_execute; rewrite Hc; simpl; rewrite Hop; simpl.
  - rewrite Hc. reflexivity.
  - rewrite Hc. reflexivity.
Qed.

(** X26.  Once more than [recoveryTimeout] ms have passed since the last
    failure, an open circuit lets the operation run again, as a
    half-open one with the count reset.  If that run fails, the circuit
    does not open again unless [failureThreshold] is at most 1: it stays
    half-open with one failure counted, and lets the next call run. *)
Theorem execute_after_timeout {T} (operation : Js' T) (self : CircuitBreaker)
    (s : State) :
  circuit_state self = Open ->
  (recoveryTimeout (options self) < Date_now (world s) - lastFailureTime self)%Z ->
  execute operation self s =
    execute operation
      {| failures := 0; lastFailureTime := lastFailureTime self;
         circuit_state := HalfOpen; options := options self |} s /\
  (forall e s1,
     operation s = (Throw e, s1) ->
     (1 < failureThreshold (options self))%Z ->
     circuit_state (snd (fst (execute operation self s))) = HalfOpen /\
     failures (snd (fst (execute operation self s))) = 1%Z).
Proof.
  intros Hopen Hwin.
  assert (Hgt : Z.gtb (Date_now (world s) - lastFailureTime self)
                  (recoveryTimeout (options self)) = true)
    by (rewrite Z.gtb_ltb; apply Z.ltb_lt; lia).
  split.
  - run_execute. rewrite Hopen. simpl. rewrite Hgt. simpl.
    destruct (operation s) as [[a | e] s1]; reflexivity.
  - intros e s1 Hop Hth. run_execute. rewrite Hopen. simpl. rewrite Hgt. simpl.
    rewrite Hop. simpl.
    replace (Z.geb 1 (failureThreshold (options self))) with false
      by (symmetry; rewrite Z.geb_leb; apply Z.leb_gt; lia).
    simpl. auto.
Qed.

End Circuit.

Section Batcher.

Context {World E R : Type} {RL : Response World E R} {HO : Host World E}.

Local Abbreviation State := (state World E R).

(** The state in which [flush] sends, the copy of the queue made. *)
Local Abbreviation copied self s :=
  ({| this := this s; store := store s ++ [OArr (events self)];
      global_fetch := global_fetch s; world := world s; calls := calls s |} : State).

Lemma flush_run (self : EventBatcher) (s : State) :
  events self <> [] ->
  flush self s =
    match send (VRef (length (store s))) (copied self s) with
    | (Normal _, s1) =>
        (Normal tt,
         {| events := []; batchSize := batchSize self;
            stats := {| batches := batches (stats self) + 1;
                        totalEvents := totalEvents (stats self)
                                       + Z.of_nat (length (events self));
                        errors := errors (stats self) |} |},
         s1)
    | (Throw _, s1) =>
        (Normal tt,
         {| events := events self; batchSize := batchSize self;
            stats := {| batches := batches (stats self);
                        totalEvents := totalEvents (stats self);
                        errors := errors (stats self) + 1 |} |},
         s1)
    end.
Proof.
  intros Hne.
  unfold flush, mbind, mtry, lift, get_self, put_self, set_events, set_stats,
    mret, array_literal. simpl.
  destruct (events self) as [|ev evs] eqn:Hev; [congruence|]. simpl.
  destruct (send (VRef (length (store s))) _) as [[r | e] s1]; simpl.
  - reflexivity.
  - now rewrite app_nil_r.
Qed.

(** X27.  [flush], run to its end with nothing else touching the
    batcher meanwhile, never fails and loses no event.  On an empty queue
    it does nothing.  Otherwise either the batch is counted ([batches] up by
    one, [totalEvents] up by its size) and the queue is empty, or the
    failure is counted ([errors] up by one) and the queue is what it was,
    the same events in the same order. *)
Theorem flush_settles (self : EventBatcher) (s : State) :
  let self' := snd (fst (flush self s)) in
  fst (fst (flush self s)) = Normal tt /\
  batchSize self' = batchSize self /\
  (events self = [] -> flush self s = (Normal tt, self, s)) /\
  (events self <> [] ->
   (events self' = [] /\
    batches (stats self') = (batches (stats self) + 1)%Z /\
    totalEvents (stats self') =
      (totalEvents (stats self) + Z.of_nat (length (events self)))%Z /\
    errors (stats self') = errors (stats self)) \/
   (events self' = events self /\
    batches (stats self') = batches (stats self) /\
    totalEvents (stats self') = totalEvents (stats self) /\
    errors (stats self') = (errors (stats self) + 1)%Z)).
Proof.
  destruct (events self) as [|ev evs] eqn:Hev.
  - assert (Hrun : flush self s = (Normal tt, self, s)).
    { unfold flush, mbind, get_self, mret. simpl. now rewrite Hev. }
    rewrite Hrun. simpl. repeat split; auto. congruence.
  - assert (Hne : events self <> []) by congruence.
    rewrite (flush_run self s Hne). rewrite <- Hev.
    destruct (send (VRef (length (store s))) _) as [[r | e] s1]; simpl;
      repeat split; auto; try congruence.
Qed.

(** X28.  What [flush] sends is the queue: one request, written out
    here, whose body is the JSON text of the queued events in the order
    they were added.  The batch counts as sent exactly when the transport
    resolves with an [ok] response; on any other outcome it goes back to
    the queue.  The client has a [url] and a [token], and the numbers of
    the events are safe integers. *)
Theorem flush_sends_queue (self : EventBatcher) (s : State)
    (ds : list data) (b u t : string) (c : completion E R) (w1 : World) :
  url (this s) = Some u -> token (this s) = Some t ->
  events self <> [] ->
  denotes_items (store s) (events self) ds ->
  safe_numbers (DArr ds) = true ->
  json (DArr ds) = SerStr b ->
  let init :=
    {| method := "POST";
       headers := [("Content-Type", "application/json");
                   ("Authorization", "Bearer " ++ t)]%string;
       body := Some b |} in
  fetchFn (this s) (Some u) init (world s) = (c, w1) ->
  requests (calls (snd (flush self s))) =
    requests (calls s) ++ [CallFetch (Some u) init] /\
  events (snd (fst (flush self s))) =
    match c with
    | Normal r => if ok r then [] else events self
    | Throw _ => events self
    end.
Proof.
  intros Hu Ht Hne Hds _ Hj init Hf0. unfold init in *. clear init.
  assert (Hf : fetchFn (this s) (url (this s))
                 (request_init (token (this s)) (Some b)) (world s) = (c, w1))
    by (rewrite Hu, Ht; exact Hf0).
  assert (Hd : denotes (store (copied self s)) (VRef (length (store s))) (DArr ds)).
  { apply den_arr with (items := events self).
    - simpl. rewrite nth_error_app2, Nat.sub_diag; [reflexivity | lia].
    - simpl. now apply denotes_grow. }
  pose proof (send_delivered (VRef (length (store s))) (copied self s) (DArr ds) b
                c w1 Hd Hj Hf) as H.
  pose proof (send_requests (VRef (length (store s))) (copied self s) (DArr ds) b
                Hd Hj) as Hreq.
  pose proof (send_log_grows (VRef (length (store s))) (copied self s)) as Hlog.
  rewrite (flush_run self s Hne).
  destruct (send (VRef (length (store s))) (copied self s)) as [c' s1] eqn:Hsend.
  simpl in H, Hlog, Hreq.
  assert (Hcalls : requests (calls s1) =
                   requests (calls s) ++
                   [CallFetch (url (this s)) (request_init (token (this s)) (Some b))]).
  { rewrite Hlog. unfold requests at 1. rewrite filter_app.
    fold (requests (new_calls (VRef (length (store s))) (copied self s))).
    now rewrite Hreq. }
  rewrite Hu, Ht in Hcalls. change (request_init (Some t) (Some b)) with
    {| method := "POST";
       headers := [("Content-Type", "application/json");
                   ("Authorization", "Bearer " ++ t)]%string;
       body := Some b |} in Hcalls.
  destruct c as [r | e].
  - destruct (ok r); destruct H as (Hres & _ & _); subst c'.
    + simpl. auto.
    + destruct (fst (text r w1)); simpl; auto.
  - destruct H as (Hres & _ & _). subst c'. simpl. auto.
Qed.

End Batcher.

(* ================================================================== *)
(** * The further properties on the mocked host *)

Lemma send_resolves_only_ok_witness :
  let s := client_state (test_client (mockResolvedValue response_200)) [event_x] in
  ok response_200 = true /\
  exists serialized,
    new_calls (VRef 0) s =
      [CallFetch (url (this s)) (request_init (token (this s)) serialized)].
Proof.
  intros s. exact (send_resolves_only_ok (VRef 0) s response_200 eq_refl).
Defined.

Lemma send_twice_witness :
  let s := client_state (test_client (mockResolvedValue response_200)) store_batch in
  let request (b : string) : call MockResponse :=
    CallFetch (Some "https://api.test/events"%string)
      {| method := "POST";
         headers := [("Content-Type", "application/json");
                     ("Authorization", "Bearer abc")]%string;
         body := Some b |} in
  requests (calls (snd (send (VRef 1) (snd (send (VRef 0) s))))) =
    [request ("[" ++ text_x ++ "]")%string; request ("[" ++ text_y ++ "]")%string].
Proof.
  intros s request.
  refine (send_twice s (VRef 0) (VRef 1)
            (DObj [("type"%string, DStr "x")]) (DObj [("type"%string, DStr "y")])
            ("[" ++ text_x ++ "]")%string ("[" ++ text_y ++ "]")%string
            "https://api.test/events" "abc" eq_refl eq_refl
            _ eq_refl eq_refl _ eq_refl eq_refl); repeat econstructor.
Defined.

Lemma constructed_client_sends_witness :
  let s0 := fresh_state [event_x] (mockResolvedValue response_200) in
  let s := snd (constructor options_valid s0) in
  requests (new_calls (VRef 0) s) =
    [CallFetch (Some "https://api.example.com"%string)
       {| method := "POST";
          headers := [("Content-Type", "application/json");
                      ("Authorization", "Bearer valid-token")]%string;
          body := Some ("[" ++ text_x ++ "]")%string |}] /\
  fst (send (VRef 0) s) = Normal response_200.
Proof.
  intros s0 s.
  assert (Hx : denotes (store s) (VRef 0) (DObj [("type"%string, DStr "x")]))
    by (repeat econstructor).
  assert (Hu : "https://api.example.com"%string <> ""%string) by discriminate.
  assert (Ht : "valid-token"%string <> ""%string) by discriminate.
  pose proof (constructed_client_sends options_valid s0 s
                "https://api.example.com"%string "valid-token"%string (VRef 0) _
                ("[" ++ text_x ++ "]")%string eq_refl eq_refl Hu Ht eq_refl Hx eq_refl)
    as H.
  split; [exact (proj1 H) | exact (proj2 (proj2 H) response_200 1%nat eq_refl eq_refl)].
Defined.

Lemma retry_fetch_first_answer_witness :
  createRetryFetch (mockResolvedValue response_404) None None
    (Some "https://api.test/events"%string) (request_init (Some "abc"%string) None) 0%nat
  = (Normal response_404, 1%nat).
Proof.
  apply retry_fetch_first_answer; [lia | reflexivity | simpl; lia].
Defined.

Lemma retry_fetch_never_5xx_witness :
  (status response_200 < 500)%Z.
Proof.
  apply (retry_fetch_never_5xx mockFlaky None None
           (Some "https://api.test/events"%string)
           (request_init (Some "abc"%string) None) 0%nat 2%nat response_200).
  reflexivity.
Defined.

Lemma retry_fetch_bounded_witness :
  snd (createRetryFetch (mockResolvedValue response_503) (Some 2%Z) None
         (Some "https://api.test/events"%string)
         (request_init (Some "abc"%string) None) 0%nat) <= 0 + Z.to_nat 2.
Proof.
  apply (retry_fetch_bounded (mockResolvedValue response_503) (fun w : nat => w)
           (Some 2%Z) None); reflexivity.
Defined.

Lemma retry_fetch_no_attempts_witness :
  createRetryFetch (mockResolvedValue response_200) (Some 0%Z) None
    (Some "https://api.test/events"%string) (request_init (Some "abc"%string) None) 0%nat
  = (Throw (JsError "Error" "All retries failed"), 0%nat).
Proof.
  apply retry_fetch_no_attempts. lia.
Defined.

Lemma retry_fetch_gives_up_witness :
  let run := createRetryFetch (mockResolvedValue response_503) None None
               (Some "https://api.test/events"%string)
               (request_init (Some "abc"%string) None) 0%nat in
  fst run = Throw (JsError "Error" "Server error: 503") /\ snd run = 3%nat.
Proof.
  intros run.
  assert (H1 : (1 <= 3)%Z) by lia.
  assert (H5 : (500 <= status response_503)%Z) by (simpl; lia).
  exact (retry_fetch_gives_up (mockResolvedValue response_503) (fun w : nat => w)
           None None (Some "https://api.test/events"%string)
           (request_init (Some "abc"%string) None) (Normal response_503) 0%nat
           H1 (fun _ _ _ => eq_refl) (fun _ _ => eq_refl) (fun _ => eq_refl) H5).
Defined.

Lemma send_over_retry_fetch_witness :
  let s := client_state
             (test_client (createRetryFetch (mockResolvedValue response_503) None None))
             [event_x] in
  fst (send (VRef 0) s) = Throw (JsError "Error" "Server error: 503") /\
  new_calls (VRef 0) s =
    [CallFetch (Some "https://api.test/events"%string)
       (request_init (Some "abc"%string) (Some ("[" ++ text_x ++ "]")%string))].
Proof.
  intros s.
  assert (Hx : denotes (store s) (VRef 0) (DObj [("type"%string, DStr "x")]))
    by (repeat econstructor).
  assert (H1 : (1 <= 3)%Z) by lia.
  assert (H5 : (500 <= status response_503)%Z) by (simpl; lia).
  exact (send_over_retry_fetch (mockResolvedValue response_503) None None s (VRef 0) _
           ("[" ++ text_x ++ "]")%string response_503 eq_refl H1 Hx eq_refl
           (fun _ => eq_refl) H5).
Defined.

Lemma validation_only_looks_witness :
  let s := client_state (test_client (mockResolvedValue response_200)) store_batch in
  let s' := client_state (test_client (mockResolvedValue response_404)) store_batch in
  snd (validateBatch (VRef 2) s) = s /\
  fst (validate (VRef 0) s) = fst (validate (VRef 0) s').
Proof.
  intros s s'. split.
  - exact (proj1 (proj2 (validation_only_looks (VRef 2) s s'))).
  - exact (proj1 (proj2 (proj2 (validation_only_looks (VRef 0) s s')) eq_refl)).
Defined.

Lemma validate_requires_type_witness :
  validate (VRef 0)
    (client_state (test_client (mockResolvedValue response_200)) [event_untyped]) =
    (Throw (ValidationError "Event type is required"),
     client_state (test_client (mockResolvedValue response_200)) [event_untyped]) /\
  validate (VRef 0)
    (client_state (test_client (mockResolvedValue response_200)) [event_numeric_type]) =
    (Throw (ValidationError "Event type must be a non-empty string"),
     client_state (test_client (mockResolvedValue response_200)) [event_numeric_type]).
Proof.
  assert (Hu : VRef 0 <> VUndefined) by discriminate.
  assert (Hn : VRef 0 <> VNull) by discriminate.
  split.
  - exact (proj1 (validate_requires_type (VRef 0)
                    (client_state (test_client (mockResolvedValue response_200))
                       [event_untyped]) Hu Hn) I).
  - refine (proj2 (validate_requires_type (VRef 0)
                     (client_state (test_client (mockResolvedValue response_200))
                        [event_numeric_type]) Hu Hn) (VNum 5) eq_refl eq_refl _).
    discriminate.
Defined.

Lemma validate_accepted_witness :
  let h := [event_stamped] in
  (exists t,
     own_property h (VRef 0) "type" = Some (VStr t) /\
     t <> ""%string /\ includes t " " = false) /\
  (forall ts,
     own_property h (VRef 0) "timestamp" = Some ts ->
     truthy_value ts = true -> Date_isNaN h ts = false) /\
  (exists b, stringify h (VRef 0) = SerStr b).
Proof.
  exact (validate_accepted (VRef 0)
           (client_state (test_client (mockResolvedValue response_200)) [event_stamped])
           eq_refl).
Defined.

Lemma validate_accepts_witness :
  let s := client_state (test_client (mockResolvedValue response_200)) [event_stamped] in
  validate (VRef 0) s = (Normal tt, s).
Proof.
  intros s.
  assert (Ht : "page.view"%string <> ""%string) by discriminate.
  refine (validate_accepts (VRef 0) s "page.view" _ eq_refl Ht eq_refl _ eq_refl).
  intros ts Hts _. injection Hts as <-. split; [discriminate | reflexivity].
Defined.

Lemma validateBatch_bounds_witness :
  let run h := fst (validateBatch (VRef 0)
                      (client_state (test_client (mockResolvedValue response_200)) h)) in
  run [event_x] = Throw (ValidationError "Events must be an array") /\
  run [OArr []] = Throw (ValidationError "Events array cannot be empty") /\
  run [OArr (repeat VNull 1001)] =
    Throw (ValidationError "Batch too large: 1001 events (max 1000)").
Proof.
  intros run. unfold run. repeat apply conj.
  - rewrite (proj1 (validateBatch_bounds (VRef 0)
                      (client_state (test_client (mockResolvedValue response_200))
                         [event_x])) eq_refl).
    reflexivity.
  - rewrite (proj1 (proj2 (validateBatch_bounds (VRef 0)
                             (client_state (test_client (mockResolvedValue response_200))
                                [OArr []])) 0%nat [] eq_refl eq_refl) eq_refl).
    reflexivity.
  - assert (Hlen : 1000 < length (repeat VNull 1001)) by (rewrite repeat_length; lia).
    rewrite (proj2 (proj2 (validateBatch_bounds (VRef 0)
                             (client_state (test_client (mockResolvedValue response_200))
                                [OArr (repeat VNull 1001)]))
                      0%nat (repeat VNull 1001) eq_refl eq_refl) Hlen).
    reflexivity.
Defined.

Lemma validateBatch_first_invalid_witness :
  let valid := client_state (test_client (mockResolvedValue response_200)) store_batch in
  let invalid := client_state (test_client (mockResolvedValue response_200)) store_invalid in
  validateBatch (VRef 2) valid = (Normal tt, valid) /\
  validateBatch (VRef 2) invalid =
    (Throw (ValidationError "Invalid event at index 1: Event type is required"), invalid).
Proof.
  intros valid invalid.
  assert (Hlen : 1 <= length [VRef 0; VRef 1; VRef 0] <= 1000) by (simpl; lia).
  split.
  - refine (proj1 (validateBatch_first_invalid 2%nat [VRef 0; VRef 1; VRef 0] valid
                     eq_refl Hlen) _).
    intros e [<- | [<- | [<- | []]]]; reflexivity.
  - refine (proj2 (validateBatch_first_invalid 2%nat [VRef 0; VRef 1; VRef 0] invalid
                     eq_refl Hlen)
              [VRef 0] (VRef 1) [VRef 0]
              (ValidationError "Event type is required") eq_refl _ eq_refl).
    intros e [<- | []]. reflexivity.
Defined.

Lemma sendWithRetry_validation_refuses_witness :
  let s := client_state (test_client (mockResolvedValue response_200)) [OArr []] in
  sendWithRetry (VRef 0) options_default s =
    (Throw (ValidationError "Events array cannot be empty"), s).
Proof.
  intros s.
  assert (H1 : (1 <= 3)%Z) by lia.
  exact (sendWithRetry_validation_refuses (VRef 0) options_default s
           "Events array cannot be empty" H1 eq_refl).
Defined.

Lemma sendWithRetry_single_attempt_witness :
  let s := client_state (test_client (mockResolvedValue response_200)) [event_x] in
  let s404 := client_state (test_client (mockResolvedValue response_404)) [event_x] in
  sendWithRetry (VRef 0) options_default s = send (VRef 0) s /\
  sendWithRetry (VRef 0) options_default s404 = send (VRef 0) s404.
Proof.
  intros s s404.
  assert (H1 : (1 <= 3)%Z) by lia.
  split.
  - exact (sendWithRetry_single_attempt (VRef 0) options_default s H1 eq_refl I).
  - exact (sendWithRetry_single_attempt (VRef 0) options_default s404 H1 eq_refl
             (or_intror eq_refl)).
Defined.

Lemma sendWithRetry_no_attempts_witness :
  let s := client_state (test_client (mockResolvedValue response_200)) [event_x] in
  sendWithRetry (VRef 0) options_no_retries s =
    (Throw (NexusError "Failed after 0 attempts: undefined"), s).
Proof.
  intros s.
  assert (H0 : (0 <= 0)%Z) by lia.
  exact (sendWithRetry_no_attempts (VRef 0) options_no_retries s 0%Z eq_refl H0
           eq_refl).
Defined.

Lemma sendWithRetry_exhausted_witness :
  let s := client_state
             (test_client (mockRejectedValue (HostError "fetch failed"%string)))
             store_batch in
  let request := CallFetch (Some "https://api.test/events"%string)
                   (request_init (Some "abc"%string)
                      (Some ("[" ++ String.concat "," [text_x; text_y; text_x] ++ "]")%string)) in
  fst (sendWithRetry (VRef 2) options_default s) =
    Throw (NexusError "Failed after 3 attempts: fetch failed") /\
  requests (calls (snd (sendWithRetry (VRef 2) options_default s))) =
    [request; request; request].
Proof.
  intros s request.
  assert (H1 : (1 <= 3)%Z) by lia.
  exact (sendWithRetry_exhausted (VRef 2) options_default s
           ("[" ++ String.concat "," [text_x; text_y; text_x] ++ "]")%string
           (HostError "fetch failed"%string)
           H1 eq_refl eq_refl eq_refl (fun _ => eq_refl) eq_refl eq_refl eq_refl).
Defined.

Lemma sendWithRetry_http_failure_witness :
  let s := client_state (test_client (mockResolvedValue response_503)) [event_x] in
  fst (sendWithRetry (VRef 0) options_default s) =
    Throw (JsError "Error" "Failed to send event(s): 503 Error - ") /\
  calls (snd (sendWithRetry (VRef 0) options_default s)) =
    [CallFetch (Some "https://api.test/events"%string)
       (request_init (Some "abc"%string) (Some ("[" ++ text_x ++ "]")%string));
     CallText response_503].
Proof.
  intros s.
  assert (Hx : denotes (store s) (VRef 0) (DObj [("type"%string, DStr "x")]))
    by (repeat econstructor).
  assert (H1 : (1 <= 3)%Z) by lia.
  exact (sendWithRetry_http_failure (VRef 0) options_default s _
           ("[" ++ text_x ++ "]")%string ""%string response_503 1%nat 1%nat
           H1 eq_refl eq_refl Hx eq_refl eq_refl eq_refl eq_refl
           eq_refl eq_refl eq_refl eq_refl).
Defined.

Lemma execute_open_rejects_witness :
  let s := at_time 10
             (client_state (test_client (mockResolvedValue response_200)) [event_x]) in
  execute (send (VRef 0)) breaker_open s =
    (Throw (NexusError "Circuit breaker is open - service unavailable"),
     breaker_open, s).
Proof.
  intros s.
  assert (Ht : (Date_now (world s) - lastFailureTime breaker_open
                <= recoveryTimeout (options breaker_open))%Z) by (simpl; lia).
  exact (execute_open_rejects (send (VRef 0)) breaker_open s eq_refl Ht).
Defined.

Lemma execute_counts_failure_witness :
  let s := client_state
             (test_client (mockRejectedValue (HostError "fetch failed"%string)))
             [event_x] in
  let once := snd (fst (execute (send (VRef 0))
                          (new_CircuitBreaker (Some breaker_options)) s)) in
  getState once = (Closed, 1%Z, 1%Z) /\
  getState (snd (fst (execute (send (VRef 0)) once s))) = (Open, 2%Z, 1%Z).
Proof.
  intros s once.
  assert (Hc : forall st, st = Closed -> st <> Open) by (intros st ->; discriminate).
  split.
  - unfold once.
    rewrite (execute_counts_failure (send (VRef 0))
               (new_CircuitBreaker (Some breaker_options)) s (snd (send (VRef 0) s))
               (HostError "fetch failed"%string) (Hc _ eq_refl) eq_refl).
    reflexivity.
  - rewrite (execute_counts_failure (send (VRef 0)) once s (snd (send (VRef 0) s))
               (HostError "fetch failed"%string) (Hc _ eq_refl) eq_refl).
    reflexivity.
Defined.

Lemma execute_success_witness :
  let s := client_state (test_client (mockResolvedValue response_200)) [event_x] in
  execute (send (VRef 0)) (new_CircuitBreaker None) s =
    (Normal response_200, new_CircuitBreaker None, snd (send (VRef 0) s)) /\
  getState (snd (fst (execute (send (VRef 0)) breaker_half_open s))) =
    (Closed, 0%Z, 0%Z).
Proof.
  intros s.
  pose proof (fun self =>
                execute_success (send (VRef 0)) self s (snd (send (VRef 0) s))
                  response_200 eq_refl) as H.
  split.
  - exact (proj1 (H (new_CircuitBreaker None)) eq_refl).
  - rewrite (proj2 (H breaker_half_open) eq_refl). reflexivity.
Defined.

Lemma execute_after_timeout_witness :
  let s := at_time 11
             (client_state
                (test_client (mockRejectedValue (HostError "fetch failed"%string)))
                [event_x]) in
  execute (send (VRef 0)) breaker_open s =
    execute (send (VRef 0)) breaker_half_open s /\
  getState (snd (fst (execute (send (VRef 0)) breaker_open s))) =
    (HalfOpen, 1%Z, 12%Z).
Proof.
  intros s.
  assert (Ht : (recoveryTimeout (options breaker_open)
                < Date_now (world s) - lastFailureTime breaker_open)%Z) by (simpl; lia).
  assert (H2 : (1 < failureThreshold (options breaker_open))%Z) by (simpl; lia).
  pose proof (execute_after_timeout (send (VRef 0)) breaker_open s eq_refl Ht) as H.
  split.
  - exact (proj1 H).
  - pose proof (proj2 H (HostError "fetch failed"%string) (snd (send (VRef 0) s))
                  eq_refl H2) as [Hs Hf].
    unfold getState. rewrite Hs, Hf. reflexivity.
Defined.

Lemma flush_settles_witness :
  let s := client_state (test_client (mockResolvedValue response_200)) store_batch in
  let s404 := client_state (test_client (mockResolvedValue response_404)) store_batch in
  fst (fst (flush batcher_xy s404)) = Normal tt /\
  batchSize (snd (fst (flush batcher_xy s))) = 50%Z /\
  flush {| events := []; batchSize := 50; stats := stats batcher_xy |} s =
    (Normal tt, {| events := []; batchSize := 50; stats := stats batcher_xy |}, s) /\
  let self' := snd (fst (flush batcher_xy s404)) in
  (events self' = [] /\ batches (stats self') = (0 + 1)%Z /\
   totalEvents (stats self') = (0 + Z.of_nat 2)%Z /\ errors (stats self') = 0%Z) \/
  (events self' = [VRef 0; VRef 1] /\ batches (stats self') = 0%Z /\
   totalEvents (stats self') = 0%Z /\ errors (stats self') = (0 + 1)%Z).
Proof.
  intros s s404.
  assert (Hne : events batcher_xy <> []) by discriminate.
  repeat apply conj.
  - exact (proj1 (flush_settles batcher_xy s404)).
  - exact (proj1 (proj2 (flush_settles batcher_xy s))).
  - exact (proj1 (proj2 (proj2 (flush_settles
                                  {| events := []; batchSize := 50;
                                     stats := stats batcher_xy |} s))) eq_refl).
  - exact (proj2 (proj2 (proj2 (flush_settles batcher_xy s404))) Hne).
Defined.

Lemma flush_sends_queue_witness :
  let s := client_state (test_client (mockResolvedValue response_200)) store_batch in
  let s404 := client_state (test_client (mockResolvedValue response_404)) store_batch in
  let request : call MockResponse :=
    CallFetch (Some "https://api.test/events"%string)
      {| method := "POST";
         headers := [("Content-Type", "application/json");
                     ("Authorization", "Bearer abc")]%string;
         body := Some ("[" ++ String.concat "," [text_x; text_y] ++ "]")%string |} in
  (requests (calls (snd (flush batcher_xy s))) = [request] /\
   events (snd (fst (flush batcher_xy s))) = []) /\
  (requests (calls (snd (flush batcher_xy s404))) = [request] /\
   events (snd (fst (flush batcher_xy s404))) = [VRef 0; VRef 1]).
Proof.
  intros s s404 request.
  assert (Hne : events batcher_xy <> []) by discriminate.
  assert (Hds : forall st : MockState, store st = store_batch ->
                denotes_items (store st) (events batcher_xy)
                  [DObj [("type"%string, DStr "x")]; DObj [("type"%string, DStr "y")]])
    by (intros st ->; repeat econstructor).
  split.
  - exact (flush_sends_queue batcher_xy s _
             ("[" ++ String.concat "," [text_x; text_y] ++ "]")%string
             "https://api.test/events" "abc"
             (Normal response_200) 1%nat eq_refl eq_refl Hne (Hds s eq_refl)
             eq_refl eq_refl eq_refl).
  - exact (flush_sends_queue batcher_xy s404 _
             ("[" ++ String.concat "," [text_x; text_y] ++ "]")%string
             "https://api.test/events" "abc"
             (Normal response_404) 1%nat eq_refl eq_refl Hne (Hds s404 eq_refl)
             eq_refl eq_refl eq_refl).
Defined.
